(** * ConversationRelay voice assistant: the call session engine of [index.js]

    The development embeds the WebSocket handlers of [index.js] (the
    ["message"] and ["close"] listeners registered on each connection) and
    [generateAIResponse], and proves properties of the conversation store,
    of the frames sent to the transport and of the way handlers settle.

    Modelling choices, all read off the source:
    - [sessions] is a JS [Map] from call identifiers to array objects.  The
      arrays are shared objects: a handler keeps the reference it read with
      [sessions.get] while it awaits the backend.  The store is therefore a
      map from keys to heap locations, and the arrays live in a heap.
    - a call identifier is a string or [undefined] ([ws.callSid] before any
      setup, or a setup message without the field): [option string].
    - every handler is an [async] function, so it settles as a promise:
      [Fulfilled] or [Rejected] with the exception that escaped.  Nothing in
      the source catches a rejection.
    - a handler runs without interruption up to an [await]; the prompt
      branch awaits the backend inside [generateAIResponse].  The branch is
      therefore split at that point ([prompt_begin], [prompt_settle]), so
      that both a handler that runs alone ([on_prompt]) and handlers that
      overlap ([overlap]) can be written.  The frames of one stream are sent
      in one step.
    - a rejected listener has nobody to handle its rejection: the source
      has no [catch] and registers no [unhandledRejection] listener, and the
      program runs on Node 18 or later, which ends the process on an
      unhandled rejection ([receive], [serve]).
    - the model backend is the environment: what [openai.chat.completions
      .create] answers is an input of the model.
    - an inbound message is taken after [JSON.parse], as an object whose
      [type], [callSid] and [voicePrompt] are strings or missing. *)

From Stdlib Require Import String.
From stdpp Require Import base option list strings gmap.


(** ** Data *)

Inductive Role := system | user | assistant.

(** [{ role, content }]; [content] is [None] for JS [null]/[undefined]
    (a prompt without [voicePrompt], a completion whose content is null). *)
Record Message := { role : Role; content : option string }.

Definition SYSTEM_PROMPT : string :=
  "You are a helpful voice assistant. Speak naturally, avoid emojis and special characters.".

(** [process.env.USE_STREAMING !== "false"] *)
Definition USE_STREAMING_of_env (v : option string) : bool :=
  negb (bool_decide (v = Some "false")).

(** An inbound transport message after [JSON.parse]; a missing field is
    [None]. *)
Record Inbound := {
  type : option string;
  callSid : option string;
  voicePrompt : option string
}.

(** The object passed to [JSON.stringify] and [ws.send]. *)
Module Out.
Record t := mk { type : string; token : option string; last : bool }.
End Out.

(** The exceptions that can escape a handler. *)
Inductive JsError :=
| TypeError      (* property access on [undefined] *)
| BackendError.  (* the backend SDK rejects or the stream throws *)

Inductive Outcome (A : Type) :=
| Fulfilled (a : A)
| Rejected (e : JsError).
Arguments Fulfilled {A} a.
Arguments Rejected {A} e.

(** The lines written with [console.log]. *)
Inductive LogLine :=
| CallSetup (sid : option string)
| UserResponse (prompt : option string)
| AIResponse (response : option string)
| CallInterrupted (sid : option string)
| ConnectionClosed.

(** The process-wide state: the [sessions] map, the array objects it (and
    suspended handlers) refer to, and the console. *)
Record Server := {
  sessions : gmap (option string) nat;
  heap : list (list Message);
  console : list LogLine
}.

(** The per-connection object [ws]: the ad-hoc [callSid] attribute and the
    frames sent on it so far. *)
Record WebSocket := {
  ws_callSid : option string;
  ws_sent : list Out.t
}.

(** *** The backend's answers *)

(** A streamed chunk: [chunk.choices[0]?.delta?.content]. *)
Record Delta := { d_content : option string }.
Record ChunkChoice := { delta : option Delta }.
Record Chunk := { c_choices : list ChunkChoice }.

Inductive StreamEnd := StreamDone | StreamError.
Record Stream := { chunks : list Chunk; ending : StreamEnd }.

(** A complete answer: [completion.choices[0].message.content]. *)
Record Choice := { message : Message }.
Record Completion := { choices : list Choice }.

(** What [openai.chat.completions.create] answers to the messages it is
    given, with [stream: true] and without; [None] is a rejected request. *)
Record Backend := {
  create_stream : list Message → option Stream;
  create : list Message → option Completion
}.

(** ** Operations *)

Definition initial : Server := {| sessions := ∅; heap := []; console := [] |}.

Definition connect : WebSocket := {| ws_callSid := None; ws_sent := [] |}.

Definition log (line : LogLine) (sv : Server) : Server :=
  {| sessions := sessions sv; heap := heap sv; console := console sv ++ [line] |}.

(** [ws.send(JSON.stringify(frame))] *)
Definition send (frame : Out.t) (ws : WebSocket) : WebSocket :=
  {| ws_callSid := ws_callSid ws; ws_sent := ws_sent ws ++ [frame] |}.

(** [conversation.push(m)] on the array object at [conversation]. *)
Definition push (conversation : nat) (m : Message) (sv : Server) : Server :=
  {| sessions := sessions sv;
     heap := alter (λ a, a ++ [m]) conversation (heap sv);
     console := console sv |}.

(** The history stored for a call identifier, if it has a session. *)
Definition history (sv : Server) (sid : option string) : option (list Message) :=
  l ← sessions sv !! sid; heap sv !! l.

Definition system_message : Message :=
  {| role := system; content := Some SYSTEM_PROMPT |}.

(** JS truthiness of a string. *)
Definition truthy (s : string) : bool :=
  match s with EmptyString => false | String _ _ => true end.

(** [chunk.choices[0]?.delta?.content || ""] *)
Definition chunk_content (chunk : Chunk) : string :=
  match c_choices chunk with
  | [] => ""
  | ch :: _ =>
      match delta ch with
      | None => ""
      | Some d =>
          match d_content d with
          | None => ""
          | Some s => s
          end
      end
  end.

Definition fragment (content : string) : Out.t :=
  Out.mk "text" (Some content) false.

Definition final_marker : Out.t := Out.mk "text" (Some "") true.

(** The body of [for await (const chunk of stream)]: the state is the
    socket and [responseTokens]. *)
Definition on_chunk (st : WebSocket * list string) (chunk : Chunk)
  : WebSocket * list string :=
  let content := chunk_content chunk in
  if truthy content
  then (send (fragment content) st.1, st.2 ++ [content])
  else st.

Definition for_await (chunks : list Chunk) (st : WebSocket * list string)
  : WebSocket * list string :=
  foldl on_chunk st chunks.

(** [responseTokens.join("")] *)
Definition join (tokens : list string) : string := String.concat "" tokens.

Section Server.
(** [const USE_STREAMING], fixed for the process. *)
Variable USE_STREAMING : bool.

Definition generateAIResponse (be : Backend) (conversation : list Message)
    (ws : WebSocket) : Outcome (option string) * WebSocket :=
  if USE_STREAMING then
    match create_stream be conversation with
    | None => (Rejected BackendError, ws)
    | Some stream =>
        let '(ws1, responseTokens) := for_await (chunks stream) (ws, []) in
        match ending stream with
        | StreamError => (Rejected BackendError, ws1)
        | StreamDone =>
            (Fulfilled (Some (join responseTokens)), send final_marker ws1)
        end
    end
  else
    match create be conversation with
    | None => (Rejected BackendError, ws)
    | Some completion =>
        match choices completion with
        | [] => (Rejected TypeError, ws)
        | ch :: _ =>
            let response := content (message ch) in
            (Fulfilled response, send (Out.mk "text" response true) ws)
        end
    end.

(** [message.type === "setup"] *)
Definition on_setup (m : Inbound) (sv : Server) (ws : WebSocket)
    : Server * WebSocket :=
  let ws1 := {| ws_callSid := callSid m; ws_sent := ws_sent ws |} in
  let sv1 := {| sessions := <[callSid m := length (heap sv)]> (sessions sv);
                heap := heap sv ++ [[system_message]];
                console := console sv |} in
  (log (CallSetup (callSid m)) sv1, ws1).

(** [message.type === "prompt"], up to the call of [generateAIResponse]:
    the handler reads the array reference and pushes the user message. *)
Definition prompt_begin (m : Inbound) (sv : Server) (ws : WebSocket)
    : Outcome nat * Server :=
  match sessions sv !! ws_callSid ws with
  | None => (Rejected TypeError, sv)
  | Some conversation =>
      (Fulfilled conversation,
        log (UserResponse (voicePrompt m))
          (push conversation {| role := user; content := voicePrompt m |} sv))
  end.

(** the rest of the prompt branch, once [generateAIResponse] has settled. *)
Definition prompt_resume (conversation : nat) (r : Outcome (option string))
    (sv : Server) : Outcome unit * Server :=
  match r with
  | Rejected e => (Rejected e, sv)
  | Fulfilled response =>
      (Fulfilled (),
        log (AIResponse response)
          (push conversation {| role := assistant; content := response |} sv))
  end.

(** A prompt handler from the moment the backend answers the request it
    made with the messages [request]: the frames are sent and the handler
    resumes.  The server and the socket are the ones of that moment. *)
Definition prompt_settle (be : Backend) (conversation : nat)
    (request : list Message) (sv : Server) (ws : WebSocket)
    : Outcome unit * Server * WebSocket :=
  let '(r, ws1) := generateAIResponse be request ws in
  let '(o, sv1) := prompt_resume conversation r sv in
  (o, sv1, ws1).

(** The prompt branch when nothing else is handled while it awaits. *)
Definition on_prompt (be : Backend) (m : Inbound) (sv : Server)
    (ws : WebSocket) : Outcome unit * Server * WebSocket :=
  match prompt_begin m sv ws with
  | (Rejected e, sv1) => (Rejected e, sv1, ws)
  | (Fulfilled conversation, sv1) =>
      prompt_settle be conversation (default [] (heap sv1 !! conversation))
        sv1 ws
  end.

(** [message.type == 'interrupt'] *)
Definition on_interrupt (sv : Server) (ws : WebSocket) : Server * WebSocket :=
  (log (CallInterrupted (ws_callSid ws)) sv, ws).

Definition has_type (m : Inbound) (t : string) : bool :=
  bool_decide (type m = Some t).

(** The ["message"] listener: three consecutive [if]s. *)
Definition on_message (be : Backend) (m : Inbound) (sv : Server)
    (ws : WebSocket) : Outcome unit * Server * WebSocket :=
  let '(sv1, ws1) :=
    if has_type m "setup" then on_setup m sv ws else (sv, ws) in
  let '(o, sv2, ws2) :=
    if has_type m "prompt" then on_prompt be m sv1 ws1
    else (Fulfilled (), sv1, ws1) in
  match o with
  | Rejected e => (Rejected e, sv2, ws2)
  | Fulfilled _ =>
      let '(sv3, ws3) :=
        if has_type m "interrupt" then on_interrupt sv2 ws2 else (sv2, ws2) in
      (Fulfilled (), sv3, ws3)
  end.

(** The ["close"] listener. *)
Definition on_close (sv : Server) (ws : WebSocket) : Server :=
  let sv1 := log ConnectionClosed sv in
  {| sessions := delete (ws_callSid ws) (sessions sv1);
     heap := heap sv1;
     console := console sv1 |}.

(** The listener applied to messages one after the other on one connection,
    each handled to its end (its generation included) before the next is
    handled, the server and the socket threaded through; the outcomes are
    collected.  It is the run of the program as long as every handler
    returns; what becomes of the process when one is rejected is [serve]. *)
Fixpoint deliver (events : list (Inbound * Backend)) (sv : Server)
    (ws : WebSocket) : list (Outcome unit) * Server * WebSocket :=
  match events with
  | [] => ([], sv, ws)
  | (m, be) :: rest =>
      let '(o, sv1, ws1) := on_message be m sv ws in
      let '(os, sv2, ws2) := deliver rest sv1 ws1 in
      (o :: os, sv2, ws2)
  end.

(** Two prompts whose handlers overlap on one connection: the second
    message arrives while the first handler awaits the backend, and the
    two answers then come back in the order of the requests.  Each handler
    runs up to its [await] when its message arrives and resumes when its
    answer does. *)
Definition overlap (m1 : Inbound) (be1 : Backend) (m2 : Inbound) (be2 : Backend)
    (sv : Server) (ws : WebSocket)
    : list (Outcome unit) * Server * WebSocket :=
  let '(b1, sv1) := prompt_begin m1 sv ws in
  let '(b2, sv2) := prompt_begin m2 sv1 ws in
  let '(o1, sv3, ws1) :=
    match b1 with
    | Rejected e => (Rejected e, sv2, ws)
    | Fulfilled c1 => prompt_settle be1 c1 (default [] (heap sv1 !! c1)) sv2 ws
    end in
  let '(o2, sv4, ws2) :=
    match b2 with
    | Rejected e => (Rejected e, sv3, ws1)
    | Fulfilled c2 => prompt_settle be2 c2 (default [] (heap sv2 !! c2)) sv3 ws1
    end in
  ([o1; o2], sv4, ws2).
End Server.

(** *** Building inbound messages *)

Definition setup (sid : option string) : Inbound :=
  {| type := Some "setup"; callSid := sid; voicePrompt := None |}.

Definition prompt (text : option string) : Inbound :=
  {| type := Some "prompt"; callSid := None; voicePrompt := text |}.

Definition interrupt : Inbound :=
  {| type := Some "interrupt"; callSid := None; voicePrompt := None |}.

(** ** Vocabulary of the statements *)

Definition user_message (text : option string) : Message :=
  {| role := user; content := text |}.

Definition assistant_message (response : option string) : Message :=
  {| role := assistant; content := response |}.

(** The non-empty contents of a stream's chunks, in stream order. *)
Definition fragments_of (cs : list Chunk) : list string :=
  filter (λ s, s ≠ "") (chunk_content <$> cs).

(** Plain concatenation, with nothing between the pieces. *)
Definition concatenation (pieces : list string) : string :=
  foldr String.append "" pieces.

(** The messages of [n] turns: user and assistant in turn. *)
Definition transcript (prompts responses : list (option string)) : list Message :=
  mjoin (zip_with (λ u a, [user_message u; assistant_message a]) prompts responses).

Definition prompts_of (turns : list (option string * Backend))
    : list (Inbound * Backend) :=
  (λ t, (prompt t.1, t.2)) <$> turns.

(** The frames sent on a socket between two of its states. *)
Definition sent_since (ws ws' : WebSocket) : list Out.t :=
  drop (length (ws_sent ws)) (ws_sent ws').

(** The backend call of a generation fails: the request is rejected, the
    stream throws before its end, or the completion has no choice to read. *)
Definition backend_fails (US : bool) (be : Backend) (conversation : list Message)
    : Prop :=
  if US then
    match create_stream be conversation with
    | None => True
    | Some s => ending s = StreamError
    end
  else
    match create be conversation with
    | None => True
    | Some c => choices c = []
    end.

(** What a graceful drop of an event would look like: the handler returns,
    the store and the socket are as they were, and a line is logged. *)
Definition dropped_and_logged (US : bool) (be : Backend) (m : Inbound)
    (sv : Server) (ws : WebSocket) : Prop :=
  ∃ sv', on_message US be m sv ws = (Fulfilled (), sv', ws) ∧
         sessions sv' = sessions sv ∧
         heap sv' = heap sv ∧
         console sv' ≠ console sv.

(** *** Backends of the scenarios *)

Definition chunk_of (s : option string) : Chunk :=
  {| c_choices := [{| delta := Some {| d_content := s |} |}] |}.

(** A backend that streams the given contents and ends the stream as told. *)
Definition streams (pieces : list (option string)) (e : StreamEnd) : Backend :=
  {| create_stream := λ _, Some {| chunks := chunk_of <$> pieces; ending := e |};
     create := λ _, None |}.

(** A backend that returns one complete answer. *)
Definition completes (text : option string) : Backend :=
  {| create_stream := λ _, None;
     create := λ _, Some {| choices := [{| message := assistant_message text |}] |} |}.

(** A backend that rejects every request. *)
Definition rejects : Backend :=
  {| create_stream := λ _, None; create := λ _, None |}.

(** *** Scenarios *)

Definition CA1 : option string := Some "CA1".
Definition CA2 : option string := Some "CA2".

Definition hello : Inbound := prompt (Some "hello").
Definition tell_me_a_story : Inbound := prompt (Some "tell me a story").

(** A connection on which [setup] for ["CA1"] has been handled. *)
Definition call_CA1 : Server * WebSocket := on_setup (setup CA1) initial connect.

(** A connection on which [setup] for ["CA2"] has been handled. *)
Definition call_CA2 : Server * WebSocket := on_setup (setup CA2) initial connect.

(** The stream of the story scenario, with chunks that carry no content in
    between. *)
Definition story : Stream :=
  {| chunks := [chunk_of (Some "Once"); {| c_choices := [] |};
                chunk_of (Some "upon"); chunk_of None; chunk_of (Some "a time");
                chunk_of (Some "")];
     ending := StreamDone |}.

Definition storyteller : Backend :=
  {| create_stream := λ _, Some story; create := λ _, None |}.

(** A stream that yields chunks without content and ends. *)
Definition silence : Stream :=
  {| chunks := [{| c_choices := [] |}; chunk_of None; chunk_of (Some "")];
     ending := StreamDone |}.

Definition silent : Backend :=
  {| create_stream := λ _, Some silence; create := λ _, None |}.

(** Batch mode: setup for ["CA1"], then "hello" answered "hi there". *)
Definition batch_call : list (Outcome unit) * Server * WebSocket :=
  deliver false
    [(setup CA1, rejects); (hello, completes (Some "hi there"))]
    initial connect.

Definition are_you_there : Inbound := prompt (Some "are you there").

(** Batch mode: after the setup for ["CA1"], "hello" and "are you there"
    arrive before the first answer does. *)
Definition overlapped_call : list (Outcome unit) * Server * WebSocket :=
  overlap false hello (completes (Some "hi there"))
    are_you_there (completes (Some "yes")) call_CA1.1 call_CA1.2.

(** Two streamed turns. *)
Definition two_turns : list (option string * Backend) :=
  [(Some "hello", streams [Some "hi"; Some " there"] StreamDone);
   (Some "tell me a story", storyteller)].

Definition streamed_call : list (Outcome unit) * Server * WebSocket :=
  deliver true ((setup CA1, rejects) :: prompts_of two_turns) initial connect.

(** Two setups on one connection, then one prompt, in batch mode. *)
Definition rebound_call : list (Outcome unit) * Server * WebSocket :=
  deliver false
    ((setup CA1, rejects) :: (setup CA2, rejects)
       :: prompts_of [(Some "hello", completes (Some "hi there"))])
    initial connect.

(** ** Reachable states *)

(** One uninterrupted piece of a handler, on any connection: a message
    handled alone, either half of a prompt handler around its [await], or a
    close.  The halves are taken with any array reference and any result of
    the generation, which is more than handlers can do; what holds of these
    steps holds of every interleaving of handlers. *)
Inductive step : Server → Server → Prop :=
| step_message US be m sv ws o sv' ws' :
    on_message US be m sv ws = (o, sv', ws') → step sv sv'
| step_begin m sv ws o sv' :
    prompt_begin m sv ws = (o, sv') → step sv sv'
| step_resume conversation r sv o sv' :
    prompt_resume conversation r sv = (o, sv') → step sv sv'
| step_close sv ws :
    step sv (on_close sv ws).

Definition reachable (sv : Server) : Prop := rtc step initial sv.

(** An array that starts with the system message and holds no other system
    message. *)
Definition well_formed (a : list Message) : Prop :=
  ∃ rest, a = system_message :: rest ∧ Forall (λ m, role m ≠ system) rest.

(** Every session refers to an array of the heap, no two sessions refer to
    the same array, and every array is well formed. *)
Definition store_ok (sv : Server) : Prop :=
  (∀ k l, sessions sv !! k = Some l → l < length (heap sv)) ∧
  (∀ k1 k2 l, sessions sv !! k1 = Some l → sessions sv !! k2 = Some l → k1 = k2) ∧
  Forall well_formed (heap sv).

(** Every array of the first state is still there in the second, with
    messages added at its end at most. *)
Definition grows (sv sv' : Server) : Prop :=
  ∀ l h, heap sv !! l = Some h → ∃ ext, heap sv' !! l = Some (h ++ ext).

(** A frame that is not the last of its turn. *)
Definition is_fragment (f : Out.t) : Prop :=
  Out.type f = "text" ∧ Out.last f = false.

(** A frame that ends a turn. *)
Definition is_final (f : Out.t) : Prop :=
  Out.type f = "text" ∧ Out.last f = true.

(** A message of a type the listener does not know. *)
Definition dtmf : Inbound :=
  {| type := Some "dtmf"; callSid := None; voicePrompt := None |}.

(** A further prompt on the connection of [rebound_call]. *)
Definition rebound_second_turn : Outcome unit * Server * WebSocket :=
  on_message false (completes (Some "yes")) are_you_there
    rebound_call.1.2 rebound_call.2.

(** The story prompt on the connection of ["CA2"], streamed. *)
Definition story_turn : Outcome unit * Server * WebSocket :=
  on_message true storyteller tell_me_a_story call_CA2.1 call_CA2.2.

(** A stream that throws after two chunks. *)
Definition broken_story : Stream :=
  {| chunks := [chunk_of (Some "Once"); chunk_of (Some "upon")];
     ending := StreamError |}.

Definition interrupted_storyteller : Backend :=
  {| create_stream := λ _, Some broken_story; create := λ _, None |}.

(** ** The text of a chunk *)

(** The text a streamed chunk carries, read off
    [chunk.choices[0]?.delta?.content || ""]: the content of the delta of
    the first choice when the three are there, the empty text otherwise. *)
Inductive carries : Chunk → string → Prop :=
| carries_no_choice :
    carries {| c_choices := [] |} ""
| carries_no_delta rest :
    carries {| c_choices := {| delta := None |} :: rest |} ""
| carries_no_content rest :
    carries
      {| c_choices := {| delta := Some {| d_content := None |} |} :: rest |} ""
| carries_content t rest :
    carries
      {| c_choices := {| delta := Some {| d_content := Some t |} |} :: rest |} t.

(** ** The process *)

(** The process is alive with its server, or has exited. *)
Inductive Process := Alive (sv : Server) | Exited (code : nat).

(** What the runtime does when the promise of a listener settles: nothing
    when it is fulfilled; when it is rejected, the rejection is unhandled
    and the process exits with code 1, and every session goes with it. *)
Definition after_listener (o : Outcome unit) (sv : Server) : Process :=
  match o with
  | Fulfilled _ => Alive sv
  | Rejected _ => Exited 1
  end.

(** A message arrives on a connection of the process. *)
Definition receive (US : bool) (be : Backend) (m : Inbound) (p : Process)
    (ws : WebSocket) : Process * WebSocket :=
  match p with
  | Exited code => (Exited code, ws)
  | Alive sv =>
      let '(o, sv', ws') := on_message US be m sv ws in
      (after_listener o sv', ws')
  end.

(** Messages arriving one after the other on one connection of the
    process. *)
Definition serve (US : bool) (events : list (Inbound * Backend)) (p : Process)
    (ws : WebSocket) : Process * WebSocket :=
  foldl (λ st e, receive US e.2 e.1 st.1 st.2) (p, ws) events.

(** *** Further scenarios *)

(** Two calls on two connections: ["CA1"], then ["CA2"], which stays idle. *)
Definition two_calls : Server * WebSocket * WebSocket :=
  let '(sv1, ws1) := on_setup (setup CA1) initial connect in
  let '(sv2, ws2) := on_setup (setup CA2) sv1 connect in
  (sv2, ws1, ws2).

(** A backend whose stream throws after the chunk "Once". *)
Definition breaks_after_once : Backend := streams [Some "Once"] StreamError.

(** The story prompt on the connection of ["CA1"] while ["CA2"] is idle,
    with the stream that throws: the handler, and the process. *)
Definition broken_turn : Outcome unit * Server * WebSocket :=
  on_message true breaks_after_once tell_me_a_story two_calls.1.1 two_calls.1.2.

Definition broken_process : Process * WebSocket :=
  receive true breaks_after_once tell_me_a_story
    (Alive two_calls.1.1) two_calls.1.2.

(** The texts of the chunks of [story], chunk by chunk. *)
Definition story_texts : list string :=
  ["Once"; ""; "upon"; ""; "a time"; ""].

(** The request of the story prompt, and the server once its handler has
    pushed the user message and awaits the backend. *)
Definition story_request : list Message :=
  [system_message; user_message (Some "tell me a story")].

Definition story_begun : Server :=
  (prompt_begin tell_me_a_story call_CA2.1 call_CA2.2).2.

(** ** Lemmas on the pieces *)

Lemma truthy_nonempty s : truthy s = true ↔ s ≠ "".
Proof. destruct s; simpl; split; congruence. Qed.

Lemma append_cons a s t : (String a s +:+ t) = String a (s +:+ t).
Proof. reflexivity. Qed.

Lemma append_empty_r s : (s +:+ "") = s.
Proof. induction s as [|a s IH]; [done | by rewrite append_cons, IH]. Qed.

Lemma append_assoc s t u : (s +:+ (t +:+ u)) = ((s +:+ t) +:+ u).
Proof. induction s as [|a s IH]; [done | by rewrite !append_cons, IH]. Qed.

Lemma join_concatenation tokens : join tokens = concatenation tokens.
Proof.
  unfold join, concatenation.
  induction tokens as [|t [|t' ts] IH]; simpl in *.
  - done.
  - by rewrite append_empty_r.
  - by rewrite <- IH.
Qed.

Lemma concatenation_app xs ys :
  concatenation (xs ++ ys) = (concatenation xs +:+ concatenation ys).
Proof.
  induction xs as [|x xs IH]; simpl; [done |].
  by rewrite IH, append_assoc.
Qed.

Lemma concatenation_nonempty xs :
  concatenation (filter (λ s, s ≠ "") xs) = concatenation xs.
Proof.
  induction xs as [|x xs IH]; [done |].
  rewrite filter_cons. case_decide as Hx; simpl.
  - by rewrite IH.
  - by rewrite Hx, IH.
Qed.

Lemma for_await_spec cs ws tokens :
  for_await cs (ws, tokens) =
    ({| ws_callSid := ws_callSid ws;
        ws_sent := ws_sent ws ++ (fragment <$> fragments_of cs) |},
     tokens ++ fragments_of cs).
Proof.
  unfold for_await, fragments_of.
  revert ws tokens. induction cs as [|c cs IH]; intros ws tokens; simpl.
  - rewrite !app_nil_r. by destruct ws.
  - unfold on_chunk at 2. simpl. rewrite filter_cons.
    destruct (truthy (chunk_content c)) eqn:Ht.
    + apply truthy_nonempty in Ht. rewrite decide_True by done.
      rewrite IH. simpl. by rewrite <- !app_assoc.
    + rewrite decide_False; [apply IH |].
      intros Hne. apply truthy_nonempty in Hne. congruence.
Qed.

(** ** The store under [push] and [log] *)

Lemma heap_push_same l m sv h :
  heap sv !! l = Some h → heap (push l m sv) !! l = Some (h ++ [m]).
Proof. intros Hl. simpl. by rewrite list_lookup_alter_eq, Hl. Qed.

Lemma heap_push_other l l' m sv :
  l' ≠ l → heap (push l m sv) !! l' = heap sv !! l'.
Proof. intros Hne. simpl. by rewrite list_lookup_alter_ne. Qed.

Lemma heap_push_length l m sv : length (heap (push l m sv)) = length (heap sv).
Proof. simpl. apply length_alter. Qed.

Lemma history_lookup sv sid l h :
  sessions sv !! sid = Some l → heap sv !! l = Some h → history sv sid = Some h.
Proof. intros Hs Hh. unfold history. by rewrite Hs. Qed.

(** ** The ["message"] listener, branch by branch *)

Ltac decide_type H :=
  unfold on_message, has_type; rewrite H;
  repeat first
    [ rewrite bool_decide_eq_true_2 by reflexivity
    | rewrite bool_decide_eq_false_2 by congruence ].

Lemma on_message_setup US be m sv ws :
  type m = Some "setup" →
  on_message US be m sv ws =
    (Fulfilled (), (on_setup m sv ws).1, (on_setup m sv ws).2).
Proof. intros Ht. decide_type Ht. by destruct (on_setup m sv ws). Qed.

Lemma on_message_prompt US be m sv ws :
  type m = Some "prompt" →
  on_message US be m sv ws = on_prompt US be m sv ws.
Proof.
  intros Ht. decide_type Ht.
  by destruct (on_prompt US be m sv ws) as [[[[]|e] sv2] ws2].
Qed.

Lemma on_message_interrupt US be m sv ws :
  type m = Some "interrupt" →
  on_message US be m sv ws =
    (Fulfilled (), log (CallInterrupted (ws_callSid ws)) sv, ws).
Proof. intros Ht. by decide_type Ht. Qed.

(** The prompt branch when the connection's call identifier has a session:
    the user message is pushed, the backend is asked with the array as it
    then is, and the assistant message is pushed if the generation
    returns. *)
Lemma on_prompt_found US be m sv ws l h :
  sessions sv !! ws_callSid ws = Some l →
  heap sv !! l = Some h →
  on_prompt US be m sv ws =
    let sv1 := log (UserResponse (voicePrompt m))
                 (push l (user_message (voicePrompt m)) sv) in
    match generateAIResponse US be (h ++ [user_message (voicePrompt m)]) ws with
    | (Fulfilled response, ws1) =>
        (Fulfilled (),
          log (AIResponse response) (push l (assistant_message response) sv1),
          ws1)
    | (Rejected e, ws1) => (Rejected e, sv1, ws1)
    end.
Proof.
  intros Hs Hh. unfold on_prompt, prompt_settle, prompt_begin. rewrite Hs.
  unfold log at 1. cbn [heap].
  rewrite (heap_push_same _ _ _ _ Hh). cbn [default].
  fold (user_message (voicePrompt m)).
  by destruct (generateAIResponse _ _ _ _) as [[r|e] ws1].
Qed.

(** [generateAIResponse] never touches [ws.callSid]. *)
Lemma generateAIResponse_callSid US be conv ws r ws1 :
  generateAIResponse US be conv ws = (r, ws1) → ws_callSid ws1 = ws_callSid ws.
Proof.
  unfold generateAIResponse. intros H.
  destruct US.
  - destruct (create_stream be conv) as [s|]; [| by simplify_eq].
    rewrite for_await_spec in H. by destruct (ending s); simplify_eq.
  - destruct (create be conv) as [c|]; [| by simplify_eq].
    by destruct (choices c); simplify_eq.
Qed.

(** A streamed generation that runs to the end of the stream. *)
Lemma generateAIResponse_streamed be conv ws s :
  create_stream be conv = Some s →
  ending s = StreamDone →
  generateAIResponse true be conv ws =
    (Fulfilled (Some (join (fragments_of (chunks s)))),
     {| ws_callSid := ws_callSid ws;
        ws_sent := ws_sent ws ++ (fragment <$> fragments_of (chunks s))
                     ++ [final_marker] |}).
Proof.
  intros Hc He. unfold generateAIResponse. rewrite Hc, for_await_spec, He.
  unfold send. simpl. by rewrite <- app_assoc.
Qed.

(** ** Runs of prompts on a connection that has a session *)

Lemma transcript_cons u a us rs :
  transcript (u :: us) (a :: rs) =
    user_message u :: assistant_message a :: transcript us rs.
Proof. reflexivity. Qed.

Lemma transcript_length us : ∀ rs,
  length rs = length us → length (transcript us rs) = 2 * length us.
Proof.
  induction us as [|u us IH]; intros [|a rs] Hlen; try discriminate; [done |].
  rewrite transcript_cons. cbn [length] in *. rewrite IH by lia. lia.
Qed.

Lemma deliver_completed_turns US turns : ∀ sv ws l h os sv' ws',
  sessions sv !! ws_callSid ws = Some l →
  heap sv !! l = Some h →
  deliver US (prompts_of turns) sv ws = (os, sv', ws') →
  Forall (λ o, o = Fulfilled ()) os →
  ∃ responses,
    length responses = length turns ∧
    sessions sv' = sessions sv ∧
    ws_callSid ws' = ws_callSid ws ∧
    heap sv' !! l = Some (h ++ transcript turns.*1 responses).
Proof.
  induction turns as [|[u be] turns IH]; intros sv ws l h os sv' ws' Hs Hh Hd Hok.
  - simpl in Hd. simplify_eq. exists []. by rewrite app_nil_r.
  - cbn [prompts_of fmap list_fmap deliver] in Hd. cbn [fst snd] in Hd.
    rewrite on_message_prompt in Hd by done.
    rewrite (on_prompt_found _ _ _ _ _ _ _ Hs Hh) in Hd. cbn zeta in Hd.
    destruct (generateAIResponse _ _ _ _) as [[r|e] ws1] eqn:Hg.
    + destruct (deliver US _ _ ws1) as [[os2 sv2] ws2] eqn:Hd2.
      simplify_eq. apply Forall_cons in Hok as [_ Hok].
      apply generateAIResponse_callSid in Hg.
      apply (IH _ _ l (h ++ [user_message u; assistant_message r]))
        in Hd2 as (rs & Hlen & Hs2 & Hw2 & Hh2); [| | | done].
      * exists (r :: rs). split; [simpl; by rewrite Hlen |].
        split; [done |]. split; [congruence |].
        rewrite Hh2. cbn [fmap list_fmap fst]. rewrite transcript_cons.
        by rewrite <- app_assoc.
      * rewrite Hg. exact Hs.
      * cbn [log heap]. rewrite (heap_push_same _ _ _ (h ++ [user_message u])).
        -- by rewrite <- app_assoc.
        -- cbn [log heap]. by apply heap_push_same.
    + destruct (deliver US _ _ ws1) as [[os2 sv2] ws2].
      simplify_eq. by apply Forall_cons in Hok as [? _].
Qed.

Lemma setup_creates m sv ws :
  let '(sv1, ws1) := on_setup m sv ws in
  ws_callSid ws1 = callSid m ∧
  ws_sent ws1 = ws_sent ws ∧
  sessions sv1 = <[callSid m := length (heap sv)]> (sessions sv) ∧
  heap sv1 = heap sv ++ [[system_message]] ∧
  heap sv1 !! length (heap sv) = Some [system_message].
Proof. simpl. repeat split. by rewrite list_lookup_middle. Qed.

(** ** The claims *)

(** C1, as amended.  A prompt arriving on a connection whose call
    identifier has no session finds [conversation] undefined: the handler
    throws a [TypeError] that nothing catches, so its promise is rejected.
    The store and the console are exactly as before and nothing is sent. *)
Theorem prompt_without_session_rejects US be m sv ws :
  type m = Some "prompt" →
  sessions sv !! ws_callSid ws = None →
  on_message US be m sv ws = (Rejected TypeError, sv, ws).
Proof.
  intros Ht Hs. rewrite on_message_prompt by done.
  unfold on_prompt, prompt_begin. by rewrite Hs.
Qed.

(** C2, as amended.  After a setup and [N] prompts on one connection, each
    prompt handled to the end of its generation before the next message is
    handled, the history of the call identifier is the system message
    followed by the [N] user/assistant pairs in arrival order: [1 + 2N]
    messages. *)
Theorem history_after_completed_turns US sid be0 turns sv ws os sv' ws' :
  deliver US ((setup sid, be0) :: prompts_of turns) sv ws = (os, sv', ws') →
  Forall (λ o, o = Fulfilled ()) os →
  ∃ responses h,
    length responses = length turns ∧
    history sv' sid = Some h ∧
    h = system_message :: transcript turns.*1 responses ∧
    length h = 1 + 2 * length turns.
Proof.
  intros Hd Hok. cbn [deliver] in Hd.
  rewrite on_message_setup in Hd by done.
  pose proof (setup_creates (setup sid) sv ws) as Hsetup.
  destruct (on_setup (setup sid) sv ws) as [sv1 ws1].
  destruct Hsetup as (Hw & _ & Hs & _ & Hh). cbn [fst snd callSid setup] in *.
  destruct (deliver US _ sv1 ws1) as [[os2 sv2] ws2] eqn:Hd2. simplify_eq.
  apply Forall_cons in Hok as [_ Hok].
  eapply deliver_completed_turns in Hd2 as (rs & Hlen & Hs2 & Hw2 & Hh2);
    [| | exact Hh | done].
  - exists rs, (system_message :: transcript turns.*1 rs).
    split; [done |]. split.
    + eapply history_lookup; [| exact Hh2].
      rewrite Hs2, Hs. apply lookup_insert_eq.
    + split; [done |]. cbn [length].
      rewrite transcript_length by (by rewrite length_fmap).
      rewrite length_fmap. lia.
  - rewrite Hs. apply lookup_insert_eq.
Qed.

Lemma sent_since_app ws ws' frames :
  ws_sent ws' = ws_sent ws ++ frames → sent_since ws ws' = frames.
Proof. intros H. unfold sent_since. by rewrite H, drop_app_length. Qed.

Lemma filter_none {A} (P : A → Prop) `{∀ x, Decision (P x)} (l : list A) :
  Forall (λ x, ¬ P x) l → filter P l = [].
Proof.
  induction 1 as [|x l Hx _ IH]; [done |].
  by rewrite filter_cons, decide_False.
Qed.

Lemma fragments_of_nonempty cs : Forall (λ f, f ≠ "") (fragments_of cs).
Proof.
  unfold fragments_of. apply Forall_forall. intros f Hf.
  by apply list_elem_of_filter in Hf as [? _].
Qed.

Lemma carries_chunk_content c t : carries c t → chunk_content c = t.
Proof. by destruct 1. Qed.

Lemma carries_total c : ∃ t, carries c t.
Proof.
  destruct c as [[|[[[[t|]]|]] rest]]; eexists; constructor.
Qed.

Lemma carries_contents cs texts :
  Forall2 carries cs texts → chunk_content <$> cs = texts.
Proof.
  induction 1 as [|c t cs texts Hc _ IH]; [done |].
  cbn [fmap list_fmap]. by rewrite (carries_chunk_content _ _ Hc), <- IH.
Qed.

Lemma carries_fragments cs texts :
  Forall2 carries cs texts → fragments_of cs = filter (λ t, t ≠ "") texts.
Proof. intros H. unfold fragments_of. by rewrite (carries_contents _ _ H). Qed.

(** C3.  In streaming mode, a generation whose stream runs to its end, the
    chunks carrying the texts [texts] one by one.  The frames the
    generation sends are the non-empty texts, in order, each as
    [{ type: "text", token, last: false }], and then the marker; the
    handler then pushes, onto the array it holds, an assistant message
    whose content is the concatenation of the tokens of those frames with
    nothing in between, and that is the whole text the backend streamed.
    The server is the one the handler finds when it resumes, whatever
    other handlers did meanwhile; while the call identifier still refers to
    the array, this is its history. *)
Theorem streamed_answer_is_concatenation be request ws s texts sv l h :
  create_stream be request = Some s →
  ending s = StreamDone →
  Forall2 carries (chunks s) texts →
  heap sv !! l = Some h →
  ∃ sv' ws' frags,
    prompt_settle true be l request sv ws = (Fulfilled (), sv', ws') ∧
    frags = filter (λ t, t ≠ "") texts ∧
    sent_since ws ws' =
      ((λ t, Out.mk "text" (Some t) false) <$> frags)
        ++ [Out.mk "text" (Some "") true] ∧
    heap sv' !! l =
      Some (h ++ [{| role := assistant;
                     content := Some (concatenation frags) |}]) ∧
    (∀ sid, sessions sv !! sid = Some l →
       history sv' sid =
         Some (h ++ [{| role := assistant;
                        content := Some (concatenation frags) |}])) ∧
    concatenation frags = concatenation texts.
Proof.
  intros Hc He Hcar Hh. unfold prompt_settle.
  rewrite (generateAIResponse_streamed _ _ _ _ Hc He).
  rewrite (carries_fragments _ _ Hcar), join_concatenation.
  cbn [prompt_resume].
  eexists _, _, (filter (λ t, t ≠ "") texts).
  split; [reflexivity |]. split; [reflexivity |].
  split; [by apply sent_since_app |].
  assert (Hpush : heap (log (AIResponse (Some (concatenation (filter (λ t, t ≠ "") texts))))
                     (push l {| role := assistant;
                                content := Some (concatenation
                                                   (filter (λ t, t ≠ "") texts)) |} sv))
                    !! l
                  = Some (h ++ [{| role := assistant;
                                   content := Some (concatenation
                                                      (filter (λ t, t ≠ "") texts)) |}])).
  { cbn [log heap]. by apply heap_push_same. }
  split; [exact Hpush |]. split.
  - intros sid Hsid. eapply history_lookup; [exact Hsid | exact Hpush].
  - apply concatenation_nonempty.
Qed.

(** C4.  In streaming mode, a generation whose stream runs to its end, the
    chunks carrying the texts [texts] one by one.  The frames sent for the
    generation are the non-empty texts in the order of the stream, each as
    [{ type: "text", token, last: false }], followed by the end-of-turn
    marker [{ type: "text", token: "", last: true }], which is the only
    frame of the generation with [last = true]. *)
Theorem streamed_frames_in_order be conv ws s texts :
  create_stream be conv = Some s →
  ending s = StreamDone →
  Forall2 carries (chunks s) texts →
  ∃ r ws',
    generateAIResponse true be conv ws = (Fulfilled r, ws') ∧
    sent_since ws ws' =
      ((λ t, Out.mk "text" (Some t) false) <$> filter (λ t, t ≠ "") texts)
        ++ [Out.mk "text" (Some "") true] ∧
    filter (λ f, Out.last f = true) (sent_since ws ws') =
      [Out.mk "text" (Some "") true].
Proof.
  intros Hc He Hcar. rewrite (generateAIResponse_streamed _ _ _ _ Hc He).
  rewrite (carries_fragments _ _ Hcar).
  eexists _, _. split; [reflexivity |].
  rewrite (sent_since_app _ _
             (((λ t, Out.mk "text" (Some t) false) <$> filter (λ t, t ≠ "") texts)
                ++ [Out.mk "text" (Some "") true])) by done.
  split; [done |].
  rewrite filter_app.
  replace (filter _ (_ <$> _)) with (@nil Out.t); [done |].
  symmetry. apply filter_none. apply Forall_fmap, Forall_true.
  intros t. simpl. congruence.
Qed.

(** C5, as amended.  In batch mode, when the backend returns a completion
    with a first choice, exactly one frame is sent for the turn: it carries
    the whole response text and has [last = true].  No separate empty
    marker follows. *)
Theorem batch_sends_single_final_frame be conv ws c ch rest :
  create be conv = Some c →
  choices c = ch :: rest →
  ∃ ws',
    generateAIResponse false be conv ws = (Fulfilled (content (message ch)), ws') ∧
    sent_since ws ws' = [Out.mk "text" (content (message ch)) true].
Proof.
  intros Hc Hch. unfold generateAIResponse. rewrite Hc, Hch.
  eexists. split; [reflexivity |]. by apply sent_since_app.
Qed.

(** One prompt, whatever the backend does: only the connection's own array
    grows, by the user message and at most the assistant message. *)
Lemma on_prompt_frame US be m sv ws l h o sv' ws' :
  sessions sv !! ws_callSid ws = Some l →
  heap sv !! l = Some h →
  on_prompt US be m sv ws = (o, sv', ws') →
  sessions sv' = sessions sv ∧
  ws_callSid ws' = ws_callSid ws ∧
  (∀ l', l' ≠ l → heap sv' !! l' = heap sv !! l') ∧
  ∃ tail, heap sv' !! l = Some (h ++ user_message (voicePrompt m) :: tail).
Proof.
  intros Hs Hh Hp. rewrite (on_prompt_found _ _ _ _ _ _ _ Hs Hh) in Hp.
  cbn zeta in Hp.
  destruct (generateAIResponse _ _ _ _) as [[r|e] ws1] eqn:Hg;
    apply generateAIResponse_callSid in Hg; simplify_eq.
  - split; [done |]. split; [done |]. split.
    + intros l' Hne. cbn [log heap]. rewrite heap_push_other by done.
      cbn [log heap]. by rewrite heap_push_other.
    + exists [assistant_message r]. cbn [log heap].
      rewrite (heap_push_same _ _ _ (h ++ [user_message (voicePrompt m)])).
      * by rewrite <- app_assoc.
      * cbn [log heap]. by apply heap_push_same.
  - split; [done |]. split; [done |]. split.
    + intros l' Hne. cbn [log heap]. by rewrite heap_push_other.
    + exists []. cbn [log heap]. by apply heap_push_same.
Qed.

Lemma deliver_prompts_frame US turns : ∀ sv ws l h os sv' ws',
  sessions sv !! ws_callSid ws = Some l →
  heap sv !! l = Some h →
  deliver US (prompts_of turns) sv ws = (os, sv', ws') →
  sessions sv' = sessions sv ∧
  ws_callSid ws' = ws_callSid ws ∧
  (∀ l', l' ≠ l → heap sv' !! l' = heap sv !! l') ∧
  ∃ ext, heap sv' !! l = Some (h ++ ext) ∧
         Forall (λ t, user_message t.1 ∈ ext) turns.
Proof.
  induction turns as [|[u be] turns IH]; intros sv ws l h os sv' ws' Hs Hh Hd.
  - simpl in Hd. simplify_eq. split; [done |]. split; [done |]. split; [done |].
    exists []. split; [by rewrite app_nil_r | constructor].
  - cbn [prompts_of fmap list_fmap deliver] in Hd. cbn [fst snd] in Hd.
    rewrite on_message_prompt in Hd by done.
    destruct (on_prompt US be (prompt u) sv ws) as [[o sv1] ws1] eqn:Hp.
    destruct (deliver US _ sv1 ws1) as [[os2 sv2] ws2] eqn:Hd2. simplify_eq.
    apply (on_prompt_frame _ _ _ _ _ _ _ _ _ _ Hs Hh) in Hp
      as (Hs1 & Hw1 & Ho1 & tail & Hh1).
    cbn [prompt voicePrompt] in Hh1.
    apply (IH _ _ l (h ++ user_message u :: tail)) in Hd2
      as (Hs2 & Hw2 & Ho2 & ext & Hh2 & Hin); [| congruence | exact Hh1].
    split; [congruence |]. split; [congruence |]. split.
    + intros l' Hne. by rewrite Ho2, Ho1.
    + exists ((user_message u :: tail) ++ ext).
      split; [by rewrite Hh2, <- app_assoc |].
      constructor.
      * cbn [fst]. apply elem_of_app. left. apply list_elem_of_here.
      * eapply Forall_impl; [exact Hin |]. intros t Ht.
        apply elem_of_app. by right.
Qed.

(** *** Runs of the process *)

Lemma serve_exited US events : ∀ code ws,
  serve US events (Exited code) ws = (Exited code, ws).
Proof. induction events as [|e events IH]; intros code ws; [done | apply IH]. Qed.

(** A run of [deliver] in which every handler returns is a run of the
    process, which is alive at its end. *)
Lemma serve_deliver US events : ∀ sv ws os sv' ws',
  deliver US events sv ws = (os, sv', ws') →
  Forall (λ o, o = Fulfilled ()) os →
  serve US events (Alive sv) ws = (Alive sv', ws').
Proof.
  induction events as [|[m be] events IH]; intros sv ws os sv' ws' Hd Hok.
  - simpl in Hd. by simplify_eq.
  - cbn [deliver] in Hd.
    destruct (on_message US be m sv ws) as [[o sv1] ws1] eqn:Hm.
    destruct (deliver US events sv1 ws1) as [[os2 sv2] ws2] eqn:Hd2.
    simplify_eq. apply Forall_cons in Hok as [-> Hok].
    unfold serve. cbn [foldl fst snd receive]. rewrite Hm. cbn [after_listener].
    by apply (IH _ _ _ _ _ Hd2).
Qed.

(** A rejected handler ends the run: whatever arrives afterwards, the
    process has exited. *)
Lemma serve_rejected US m be events sv ws e sv1 ws1 :
  on_message US be m sv ws = (Rejected e, sv1, ws1) →
  serve US ((m, be) :: events) (Alive sv) ws = (Exited 1, ws1).
Proof.
  intros Hm. unfold serve. cbn [foldl fst snd receive]. rewrite Hm.
  cbn [after_listener]. apply (serve_exited US events).
Qed.

(** C6, as amended.  When the backend call of an utterance fails, the
    exception escapes the handler, whose promise is rejected.  Up to then
    the user message has been pushed and no assistant message; the frames
    sent, if any, are fragments with [last = false], so no terminal marker
    is emitted.  The rejection is unhandled and the process exits. *)
Theorem failed_generation_rejects US be m sv ws l h :
  type m = Some "prompt" →
  sessions sv !! ws_callSid ws = Some l →
  heap sv !! l = Some h →
  backend_fails US be (h ++ [user_message (voicePrompt m)]) →
  ∃ e sv' ws',
    on_message US be m sv ws = (Rejected e, sv', ws') ∧
    heap sv' !! l = Some (h ++ [user_message (voicePrompt m)]) ∧
    Forall (λ f, Out.last f = false) (sent_since ws ws') ∧
    receive US be m (Alive sv) ws = (Exited 1, ws').
Proof.
  intros Ht Hs Hh Hfail.
  assert (Hrun : ∃ e sv' ws',
    on_message US be m sv ws = (Rejected e, sv', ws') ∧
    heap sv' !! l = Some (h ++ [user_message (voicePrompt m)]) ∧
    Forall (λ f, Out.last f = false) (sent_since ws ws')).
  { rewrite on_message_prompt by done.
    rewrite (on_prompt_found _ _ _ _ _ _ _ Hs Hh). cbn zeta.
    set (sv1 := log _ _).
    assert (H1 : heap sv1 !! l = Some (h ++ [user_message (voicePrompt m)])).
    { subst sv1. cbn [log heap]. by apply heap_push_same. }
    unfold backend_fails in Hfail. unfold generateAIResponse.
    destruct US.
    - destruct (create_stream be _) as [s|].
      + rewrite for_await_spec, Hfail.
        eexists _, _, _. split; [reflexivity |]. split; [done |].
        rewrite (sent_since_app _ _ (fragment <$> fragments_of (chunks s)))
          by done.
        by apply Forall_fmap, Forall_true.
      + eexists _, _, _. split; [reflexivity |]. split; [done |].
        rewrite (sent_since_app _ _ []) by (by rewrite app_nil_r). constructor.
    - destruct (create be _) as [c|].
      + rewrite Hfail.
        eexists _, _, _. split; [reflexivity |]. split; [done |].
        rewrite (sent_since_app _ _ []) by (by rewrite app_nil_r). constructor.
      + eexists _, _, _. split; [reflexivity |]. split; [done |].
        rewrite (sent_since_app _ _ []) by (by rewrite app_nil_r). constructor. }
  destruct Hrun as (e & sv' & ws' & Hrun & Hheap & Hsent).
  exists e, sv', ws'. split; [done |]. split; [done |]. split; [done |].
  unfold receive. by rewrite Hrun.
Qed.

(** C7, as amended.  A setup for a call identifier that already has a
    session is not rejected: the handler returns, the store entry now
    refers to a fresh array holding only the system message, and the
    connection is bound to the identifier.  The former array is left as it
    was but is no longer the session's history. *)
Theorem setup_overwrites_session US be m sv ws l h :
  type m = Some "setup" →
  sessions sv !! callSid m = Some l →
  heap sv !! l = Some h →
  ∃ sv' ws',
    on_message US be m sv ws = (Fulfilled (), sv', ws') ∧
    history sv' (callSid m) = Some [system_message] ∧
    sessions sv' !! callSid m ≠ Some l ∧
    heap sv' !! l = Some h ∧
    ws_callSid ws' = callSid m ∧
    ws_sent ws' = ws_sent ws.
Proof.
  intros Ht Hs Hh. rewrite on_message_setup by done.
  pose proof (setup_creates m sv ws) as Hsetup.
  destruct (on_setup m sv ws) as [sv1 ws1].
  destruct Hsetup as (Hw & Hsent & Hs1 & Hh1 & Hnew). cbn [fst snd].
  eexists _, _. split; [reflexivity |].
  apply lookup_lt_Some in Hh as Hlt.
  split; [| split; [| split]]; [| | | done].
  - eapply history_lookup; [| exact Hnew]. rewrite Hs1. apply lookup_insert_eq.
  - rewrite Hs1, lookup_insert_eq. intros [= Heq]. lia.
  - rewrite Hh1. by rewrite lookup_app_l.
Qed.

(** C8.  An interrupt only writes a line on the console: the handler
    returns, nothing is sent, and the store, the arrays and the connection
    are unchanged.  This holds in every state, so in particular when no
    generation is in flight. *)
Theorem interrupt_is_noop US be m sv ws :
  type m = Some "interrupt" →
  ∃ sv',
    on_message US be m sv ws = (Fulfilled (), sv', ws) ∧
    sessions sv' = sessions sv ∧
    heap sv' = heap sv ∧
    sent_since ws ws = [].
Proof.
  intros Ht. rewrite on_message_interrupt by done.
  eexists. split; [reflexivity |]. repeat split.
  apply sent_since_app. by rewrite app_nil_r.
Qed.

Lemma history_on_close_other sv ws sid :
  sid ≠ ws_callSid ws → history (on_close sv ws) sid = history sv sid.
Proof.
  intros Hne. unfold history, on_close. cbn [sessions heap log].
  by rewrite lookup_delete_ne.
Qed.

Lemma history_on_close_own sv ws : history (on_close sv ws) (ws_callSid ws) = None.
Proof.
  unfold history, on_close. cbn [sessions heap log].
  by rewrite lookup_delete_eq.
Qed.

(** C9.  Two setups on one connection, for different call identifiers [A]
    then [B]: the connection is bound to [B]; the prompts that follow push
    their user messages onto [B]'s history and leave [A]'s history at the
    system message alone; closing the connection deletes [B]'s session only,
    so [A]'s session is still in the store afterwards. *)
Theorem second_setup_rebinds US A B beA beB turns sv ws os sv1 ws1 :
  A ≠ B →
  deliver US ((setup A, beA) :: (setup B, beB) :: prompts_of turns) sv ws
    = (os, sv1, ws1) →
  ws_callSid ws1 = B ∧
  history sv1 A = Some [system_message] ∧
  (∃ hB, history sv1 B = Some (system_message :: hB) ∧
         Forall (λ t, user_message t.1 ∈ hB) turns) ∧
  history (on_close sv1 ws1) A = Some [system_message] ∧
  history (on_close sv1 ws1) B = None.
Proof.
  intros Hne Hd. cbn [deliver] in Hd.
  rewrite on_message_setup in Hd by done.
  pose proof (setup_creates (setup A) sv ws) as HA.
  destruct (on_setup (setup A) sv ws) as [svA wsA].
  destruct HA as (_ & _ & HsA & HhA & HlA). cbn [fst snd callSid setup] in *.
  rewrite on_message_setup in Hd by done.
  pose proof (setup_creates (setup B) svA wsA) as HB.
  destruct (on_setup (setup B) svA wsA) as [svB wsB].
  destruct HB as (HwB & _ & HsB & HhB & HlB). cbn [fst snd callSid setup] in *.
  destruct (deliver US _ svB wsB) as [[os2 sv2] ws2] eqn:Hd2. simplify_eq.
  assert (Hlen : length (heap svA) = S (length (heap sv))).
  { rewrite HhA, length_app. simpl. lia. }
  assert (HAB : heap svB !! length (heap sv) = Some [system_message]).
  { rewrite HhB, lookup_app_l by lia. exact HlA. }
  apply (deliver_prompts_frame _ _ _ _ (length (heap svA)) [system_message])
    in Hd2 as (Hs2 & Hw2 & Ho2 & ext & Hh2 & Hin);
    [| rewrite HsB; apply lookup_insert_eq | exact HlB].
  assert (HhistA : history sv1 A = Some [system_message]).
  { eapply (history_lookup _ _ (length (heap sv))).
    - rewrite Hs2, HsB, lookup_insert_ne, HsA by congruence.
      apply lookup_insert_eq.
    - rewrite Ho2 by lia. exact HAB. }
  split; [done |]. split; [done |]. split.
  - exists ext. split; [| done].
    eapply history_lookup; [| exact Hh2].
    rewrite Hs2, HsB. apply lookup_insert_eq.
  - split.
    + rewrite history_on_close_other by congruence. exact HhistA.
    + rewrite <- Hw2. apply history_on_close_own.
Qed.

Lemma fragments_of_silent cs :
  Forall (λ c, chunk_content c = "") cs → fragments_of cs = [].
Proof.
  intros Hall. unfold fragments_of. apply filter_none.
  apply Forall_fmap. eapply Forall_impl; [exact Hall |].
  simpl. intros c Hc Hne. by apply Hne.
Qed.

(** C10.  In streaming mode, a stream that ends without having yielded any
    non-empty content still completes the generation: the only frame sent
    is the end-of-turn marker, [generateAIResponse] returns the empty
    string, and the handler pushes an assistant message with empty content
    and returns. *)
Theorem silent_stream_completes be m sv ws l h s :
  type m = Some "prompt" →
  sessions sv !! ws_callSid ws = Some l →
  heap sv !! l = Some h →
  create_stream be (h ++ [user_message (voicePrompt m)]) = Some s →
  ending s = StreamDone →
  Forall (λ c, chunk_content c = "") (chunks s) →
  ∃ sv' ws',
    generateAIResponse true be (h ++ [user_message (voicePrompt m)]) ws
      = (Fulfilled (Some ""), ws') ∧
    on_message true be m sv ws = (Fulfilled (), sv', ws') ∧
    sent_since ws ws' = [Out.mk "text" (Some "") true] ∧
    history sv' (ws_callSid ws) =
      Some (h ++ [user_message (voicePrompt m); assistant_message (Some "")]).
Proof.
  intros Ht Hs Hh Hc He Hall.
  rewrite on_message_prompt by done.
  rewrite (on_prompt_found _ _ _ _ _ _ _ Hs Hh). cbn zeta.
  rewrite (generateAIResponse_streamed _ _ _ _ Hc He).
  rewrite (fragments_of_silent _ Hall). cbn [fmap list_fmap app join String.concat].
  eexists _, _. split; [reflexivity |]. split; [reflexivity |].
  split; [by apply sent_since_app |].
  eapply history_lookup; [exact Hs |]. cbn [log heap].
  rewrite (heap_push_same _ _ _ (h ++ [user_message (voicePrompt m)])).
  - by rewrite <- app_assoc.
  - cbn [log heap]. by apply heap_push_same.
Qed.

(** ** The statements at concrete inputs *)

(** C1: a prompt on a fresh connection, before any setup.  The handler is
    rejected with a [TypeError]; it is not a drop with a logged line. *)
Lemma prompt_before_setup_not_dropped :
  on_message false (completes (Some "hi there")) hello initial connect
    = (Rejected TypeError, initial, connect) ∧
  ¬ dropped_and_logged false (completes (Some "hi there")) hello initial connect.
Proof.
  split; [reflexivity |].
  intros (sv' & Hrun & _). vm_compute in Hrun. discriminate Hrun.
Qed.

Lemma prompt_without_session_rejects_witness :
  type hello = Some "prompt" ∧
  sessions initial !! ws_callSid connect = None ∧
  on_message false (completes (Some "hi there")) hello initial connect
    = (Rejected TypeError, initial, connect).
Proof.
  split; [reflexivity |]. split; [reflexivity |].
  apply (prompt_without_session_rejects false (completes (Some "hi there"))
           hello initial connect); reflexivity.
Defined.

(** C2: two prompts whose handlers overlap.  Both generations complete and
    the history has five messages, but the two user messages come first:
    it is not a sequence of user/assistant pairs. *)
Lemma overlapping_prompts_do_not_alternate :
  overlapped_call.1.1 = [Fulfilled (); Fulfilled ()] ∧
  history overlapped_call.1.2 CA1 =
    Some [system_message;
          user_message (Some "hello"); user_message (Some "are you there");
          assistant_message (Some "hi there"); assistant_message (Some "yes")] ∧
  ∀ responses,
    history overlapped_call.1.2 CA1 ≠
      Some (system_message
              :: transcript [Some "hello"; Some "are you there"] responses).
Proof.
  split; [reflexivity |]. split; [reflexivity |].
  intros responses Heq.
  assert (Hh : history overlapped_call.1.2 CA1 =
    Some [system_message;
          user_message (Some "hello"); user_message (Some "are you there");
          assistant_message (Some "hi there"); assistant_message (Some "yes")])
    by reflexivity.
  rewrite Hh in Heq. destruct responses as [|a [|b rest]]; discriminate Heq.
Qed.

Lemma history_after_completed_turns_witness :
  Forall (λ o, o = Fulfilled ()) streamed_call.1.1 ∧
  ∃ responses h,
    length responses = length two_turns ∧
    history streamed_call.1.2 CA1 = Some h ∧
    h = system_message :: transcript two_turns.*1 responses ∧
    length h = 1 + 2 * length two_turns.
Proof.
  assert (Hok : Forall (λ o, o = Fulfilled ()) streamed_call.1.1)
    by (vm_compute; repeat constructor).
  split; [exact Hok |].
  apply (history_after_completed_turns true CA1 rejects two_turns initial connect
           streamed_call.1.1 streamed_call.1.2 streamed_call.2);
    [vm_compute; reflexivity | exact Hok].
Defined.

Lemma streamed_answer_is_concatenation_witness :
  Forall2 carries (chunks story) story_texts ∧
  heap story_begun !! 0 = Some story_request ∧
  ∃ sv' ws' frags,
    prompt_settle true storyteller 0 story_request story_begun call_CA2.2
      = (Fulfilled (), sv', ws') ∧
    frags = ["Once"; "upon"; "a time"] ∧
    sent_since call_CA2.2 ws' =
      [Out.mk "text" (Some "Once") false;
       Out.mk "text" (Some "upon") false;
       Out.mk "text" (Some "a time") false;
       Out.mk "text" (Some "") true] ∧
    heap sv' !! 0 =
      Some [system_message;
            {| role := user; content := Some "tell me a story" |};
            {| role := assistant; content := Some "Onceupona time" |}] ∧
    (∀ sid, sessions story_begun !! sid = Some 0 →
       history sv' sid =
         Some [system_message;
               {| role := user; content := Some "tell me a story" |};
               {| role := assistant; content := Some "Onceupona time" |}]) ∧
    "Onceupona time" = "Onceupona time".
Proof.
  assert (Hcar : Forall2 carries (chunks story) story_texts)
    by (repeat constructor).
  split; [exact Hcar |]. split; [reflexivity |].
  destruct (streamed_answer_is_concatenation storyteller story_request
              call_CA2.2 story story_texts story_begun 0 story_request
              eq_refl eq_refl Hcar eq_refl)
    as (sv' & ws' & frags & Hrun & Hfrags & Hsent & Hheap & Hhist & Htext).
  assert (Hf : frags = ["Once"; "upon"; "a time"])
    by (rewrite Hfrags; reflexivity).
  rewrite Hf in Hsent, Hheap, Hhist.
  exists sv', ws', frags.
  exact (conj Hrun (conj Hf (conj Hsent (conj Hheap (conj Hhist eq_refl))))).
Defined.

Lemma streamed_frames_in_order_witness :
  Forall2 carries (chunks story) story_texts ∧
  ∃ r ws',
    generateAIResponse true storyteller story_request connect
      = (Fulfilled r, ws') ∧
    sent_since connect ws' =
      [Out.mk "text" (Some "Once") false;
       Out.mk "text" (Some "upon") false;
       Out.mk "text" (Some "a time") false;
       Out.mk "text" (Some "") true] ∧
    filter (λ f, Out.last f = true) (sent_since connect ws') =
      [Out.mk "text" (Some "") true].
Proof.
  assert (Hcar : Forall2 carries (chunks story) story_texts)
    by (repeat constructor).
  split; [exact Hcar |].
  exact (streamed_frames_in_order storyteller story_request connect
           story story_texts eq_refl eq_refl Hcar).
Defined.

(** The story scenario, evaluated: three fragments, then the marker. *)
Example story_frames :
  (generateAIResponse true storyteller
     [system_message; user_message (Some "tell me a story")] connect) =
  (Fulfilled (Some "Onceupona time"),
   {| ws_callSid := None;
      ws_sent := [Out.mk "text" (Some "Once") false;
                  Out.mk "text" (Some "upon") false;
                  Out.mk "text" (Some "a time") false;
                  Out.mk "text" (Some "") true] |}).
Proof. reflexivity. Qed.

(** C5: the batch scenario of the specification sends one frame, not two,
    and that frame carries the text together with [last = true]. *)
Lemma batch_turn_sends_one_frame :
  batch_call.1.1 = [Fulfilled (); Fulfilled ()] ∧
  history batch_call.1.2 CA1 =
    Some [system_message; user_message (Some "hello");
          assistant_message (Some "hi there")] ∧
  ws_sent batch_call.2 = [Out.mk "text" (Some "hi there") true] ∧
  length (ws_sent batch_call.2) ≠ 2.
Proof. vm_compute. repeat split; congruence. Qed.

Lemma batch_sends_single_final_frame_witness :
  ∃ ws',
    generateAIResponse false (completes (Some "hi there"))
      [system_message; user_message (Some "hello")] connect
      = (Fulfilled (Some "hi there"), ws') ∧
    sent_since connect ws' = [Out.mk "text" (Some "hi there") true].
Proof.
  apply (batch_sends_single_final_frame (completes (Some "hi there"))
           [system_message; user_message (Some "hello")] connect
           {| choices := [{| message := assistant_message (Some "hi there") |}] |}
           {| message := assistant_message (Some "hi there") |} []);
    reflexivity.
Defined.

(** C6: two calls, ["CA2"] idle; the stream of a prompt on ["CA1"] throws
    after one fragment.  The handler is rejected, the fragment has been
    sent and no frame with [last = true] follows; the process has exited, so
    it no longer holds the session of the idle call either. *)
Lemma broken_stream_ends_the_process :
  history two_calls.1.1 CA2 = Some [system_message] ∧
  broken_turn.1.1 = Rejected BackendError ∧
  history broken_turn.1.2 CA1 =
    Some [system_message; user_message (Some "tell me a story")] ∧
  sent_since two_calls.1.2 broken_turn.2 = [Out.mk "text" (Some "Once") false] ∧
  ¬ Exists (λ f, Out.last f = true) (sent_since two_calls.1.2 broken_turn.2) ∧
  broken_process.1 = Exited 1 ∧
  ¬ (∃ sv', broken_process.1 = Alive sv' ∧
            history sv' CA2 = history two_calls.1.1 CA2).
Proof.
  split; [reflexivity |]. split; [reflexivity |]. split; [reflexivity |].
  split; [reflexivity |]. split.
  - assert (Hsent : sent_since two_calls.1.2 broken_turn.2
                    = [Out.mk "text" (Some "Once") false]) by reflexivity.
    rewrite Hsent. intros Hex.
    apply Exists_cons in Hex as [Hl | Hex]; [discriminate Hl |].
    by apply Exists_nil in Hex.
  - assert (Hexit : broken_process.1 = Exited 1) by reflexivity.
    split; [exact Hexit |].
    intros (sv' & Halive & _). rewrite Hexit in Halive. discriminate Halive.
Qed.

Lemma failed_generation_rejects_witness :
  backend_fails true breaks_after_once
    ([system_message] ++ [user_message (voicePrompt tell_me_a_story)]) ∧
  ∃ e sv' ws',
    on_message true breaks_after_once tell_me_a_story
      two_calls.1.1 two_calls.1.2 = (Rejected e, sv', ws') ∧
    heap sv' !! 0 =
      Some ([system_message] ++ [user_message (voicePrompt tell_me_a_story)]) ∧
    Forall (λ f, Out.last f = false) (sent_since two_calls.1.2 ws') ∧
    receive true breaks_after_once tell_me_a_story
      (Alive two_calls.1.1) two_calls.1.2 = (Exited 1, ws').
Proof.
  split; [reflexivity |].
  apply (failed_generation_rejects true breaks_after_once
           tell_me_a_story two_calls.1.1 two_calls.1.2 0 [system_message]);
    reflexivity.
Defined.

(** C7: a second setup for ["CA1"] after one completed turn.  The handler
    returns, and the history of ["CA1"] is the system message alone: the
    three messages of the call are no longer the session's history. *)
Lemma second_setup_replaces_history :
  let r := on_message false rejects (setup CA1) batch_call.1.2 batch_call.2 in
  history batch_call.1.2 CA1 =
    Some [system_message; user_message (Some "hello");
          assistant_message (Some "hi there")] ∧
  r.1.1 = Fulfilled () ∧
  history r.1.2 CA1 = Some [system_message] ∧
  history r.1.2 CA1 ≠ history batch_call.1.2 CA1.
Proof. vm_compute. repeat split. congruence. Qed.

Lemma setup_overwrites_session_witness :
  sessions batch_call.1.2 !! callSid (setup CA1) = Some 0 ∧
  ∃ sv' ws',
    on_message false rejects (setup CA1) batch_call.1.2 batch_call.2
      = (Fulfilled (), sv', ws') ∧
    history sv' (callSid (setup CA1)) = Some [system_message] ∧
    sessions sv' !! callSid (setup CA1) ≠ Some 0 ∧
    heap sv' !! 0 =
      Some [system_message; user_message (Some "hello");
            assistant_message (Some "hi there")] ∧
    ws_callSid ws' = callSid (setup CA1) ∧
    ws_sent ws' = ws_sent batch_call.2.
Proof.
  split; [reflexivity |].
  apply (setup_overwrites_session false rejects (setup CA1)
           batch_call.1.2 batch_call.2 0
           [system_message; user_message (Some "hello");
            assistant_message (Some "hi there")]); reflexivity.
Defined.

Lemma interrupt_is_noop_witness :
  ∃ sv',
    on_message true storyteller interrupt call_CA1.1 call_CA1.2
      = (Fulfilled (), sv', call_CA1.2) ∧
    sessions sv' = sessions call_CA1.1 ∧
    heap sv' = heap call_CA1.1 ∧
    sent_since call_CA1.2 call_CA1.2 = [].
Proof.
  apply (interrupt_is_noop true storyteller interrupt call_CA1.1 call_CA1.2).
  reflexivity.
Defined.

Lemma second_setup_rebinds_witness :
  CA1 ≠ CA2 ∧
  ws_callSid rebound_call.2 = CA2 ∧
  history rebound_call.1.2 CA1 = Some [system_message] ∧
  (∃ hB, history rebound_call.1.2 CA2 = Some (system_message :: hB) ∧
         Forall (λ t, user_message t.1 ∈ hB)
           [(Some "hello", completes (Some "hi there"))]) ∧
  history (on_close rebound_call.1.2 rebound_call.2) CA1 = Some [system_message] ∧
  history (on_close rebound_call.1.2 rebound_call.2) CA2 = None.
Proof.
  assert (Hne : CA1 ≠ CA2) by discriminate.
  split; [exact Hne |].
  apply (second_setup_rebinds false CA1 CA2 rejects rejects
           [(Some "hello", completes (Some "hi there"))] initial connect
           rebound_call.1.1 rebound_call.1.2 rebound_call.2);
    [exact Hne | vm_compute; reflexivity].
Defined.

(** The rebound connection, evaluated: the prompt went to ["CA2"], and after
    the close ["CA1"] is the one session left. *)
Example rebound_call_evaluated :
  history rebound_call.1.2 CA2 =
    Some [system_message; user_message (Some "hello");
          assistant_message (Some "hi there")] ∧
  history rebound_call.1.2 CA1 = Some [system_message] ∧
  sessions (on_close rebound_call.1.2 rebound_call.2) = {[ CA1 := 0 ]}.
Proof. vm_compute. repeat split. Qed.

Lemma silent_stream_completes_witness :
  Forall (λ c, chunk_content c = "") (chunks silence) ∧
  ∃ sv' ws',
    generateAIResponse true silent
      ([system_message] ++ [user_message (voicePrompt hello)]) call_CA1.2
      = (Fulfilled (Some ""), ws') ∧
    on_message true silent hello call_CA1.1 call_CA1.2 = (Fulfilled (), sv', ws') ∧
    sent_since call_CA1.2 ws' = [Out.mk "text" (Some "") true] ∧
    history sv' (ws_callSid call_CA1.2) =
      Some ([system_message] ++
            [user_message (voicePrompt hello); assistant_message (Some "")]).
Proof.
  assert (Hall : Forall (λ c, chunk_content c = "") (chunks silence))
    by (repeat constructor).
  split; [exact Hall |].
  apply (silent_stream_completes silent hello call_CA1.1 call_CA1.2 0
           [system_message] silence); try reflexivity. exact Hall.
Defined.

(** ** What every step keeps *)

(** A relation between servers that holds across the primitive effects of
    the handlers holds across every step, and so along every run. *)
Section Steps.
Variable R : Server → Server → Prop.
Hypothesis R_refl : ∀ sv, R sv sv.
Hypothesis R_trans : ∀ sv1 sv2 sv3, R sv1 sv2 → R sv2 sv3 → R sv1 sv3.
Hypothesis R_log : ∀ line sv, R sv (log line sv).
Hypothesis R_push : ∀ l m sv, role m ≠ system → R sv (push l m sv).
Hypothesis R_setup : ∀ m sv ws, R sv (on_setup m sv ws).1.
Hypothesis R_close : ∀ sv ws, R sv (on_close sv ws).

Lemma R_prompt_begin m sv ws o sv' :
  prompt_begin m sv ws = (o, sv') → R sv sv'.
Proof using R_refl R_trans R_log R_push.
  unfold prompt_begin. intros H.
  destruct (sessions sv !! ws_callSid ws) as [l|]; simplify_eq; [| done].
  eapply R_trans; [apply (R_push l (user_message (voicePrompt m))); done |].
  apply R_log.
Qed.

Lemma R_prompt_resume c r sv o sv' :
  prompt_resume c r sv = (o, sv') → R sv sv'.
Proof using R_refl R_trans R_log R_push.
  unfold prompt_resume. intros H. destruct r as [response|e]; simplify_eq; [| done].
  eapply R_trans; [apply (R_push c (assistant_message response)); done |].
  apply R_log.
Qed.

Lemma R_on_prompt US be m sv ws o sv' ws' :
  on_prompt US be m sv ws = (o, sv', ws') → R sv sv'.
Proof using R_refl R_trans R_log R_push.
  unfold on_prompt, prompt_settle. intros H.
  destruct (prompt_begin m sv ws) as [[c|e] sv1] eqn:Hb;
    apply R_prompt_begin in Hb; [| by simplify_eq].
  destruct (generateAIResponse _ _ _ _) as [r ws1].
  destruct (prompt_resume c r sv1) as [o2 sv2] eqn:Hr.
  apply R_prompt_resume in Hr. simplify_eq. by eapply R_trans.
Qed.

Lemma R_on_message US be m sv ws o sv' ws' :
  on_message US be m sv ws = (o, sv', ws') → R sv sv'.
Proof using R_refl R_trans R_log R_push R_setup.
  unfold on_message. intros H.
  assert (H1 : ∃ sv1 ws1,
    (if has_type m "setup" then on_setup m sv ws else (sv, ws)) = (sv1, ws1)
    ∧ R sv sv1).
  { destruct (has_type m "setup"); [| by eexists _, _].
    pose proof (R_setup m sv ws) as Hs.
    destruct (on_setup m sv ws) as [sv1 ws1]. by eexists _, _. }
  destruct H1 as (sv1 & ws1 & H1 & HR1). rewrite H1 in H.
  assert (H2 : ∃ o2 sv2 ws2,
    (if has_type m "prompt" then on_prompt US be m sv1 ws1
     else (Fulfilled (), sv1, ws1)) = (o2, sv2, ws2) ∧ R sv1 sv2).
  { destruct (has_type m "prompt"); [| by eexists _, _, _].
    destruct (on_prompt US be m sv1 ws1) as [[o2 sv2] ws2] eqn:Hp.
    apply R_on_prompt in Hp. by eexists _, _, _. }
  destruct H2 as (o2 & sv2 & ws2 & H2 & HR2). rewrite H2 in H.
  destruct o2 as [[]|e]; [| simplify_eq; by eapply R_trans].
  destruct (has_type m "interrupt"); unfold on_interrupt in H; simplify_eq.
  - eapply R_trans; [eassumption |]. eapply R_trans; [eassumption |]. apply R_log.
  - by eapply R_trans.
Qed.

Lemma R_step sv sv' : step sv sv' → R sv sv'.
Proof using R_refl R_trans R_log R_push R_setup R_close.
  destruct 1 as [US be m sv ws o sv' ws' H | m sv ws o sv' H
                 | c r sv o sv' H | sv ws].
  - by eapply R_on_message.
  - by eapply R_prompt_begin.
  - by eapply R_prompt_resume.
  - apply R_close.
Qed.

Lemma R_run sv sv' : rtc step sv sv' → R sv sv'.
Proof using R_refl R_trans R_log R_push R_setup R_close.
  induction 1 as [sv | sv1 sv2 sv3 Hs _ IH]; [apply R_refl |].
  eapply R_trans; [by apply R_step | exact IH].
Qed.
End Steps.

(** *** The store invariant *)

Lemma well_formed_push a m :
  role m ≠ system → well_formed a → well_formed (a ++ [m]).
Proof.
  intros Hm (rest & -> & Hrest). exists (rest ++ [m]). split; [done |].
  apply Forall_app. split; [done | by constructor].
Qed.

Lemma well_formed_fresh : well_formed [system_message].
Proof. exists []. by split. Qed.

Lemma store_ok_initial : store_ok initial.
Proof.
  split; [| split]; simpl.
  - intros k l H. by rewrite lookup_empty in H.
  - intros k1 k2 l H. by rewrite lookup_empty in H.
  - constructor.
Qed.

Lemma store_ok_log line sv : store_ok sv → store_ok (log line sv).
Proof. by intros ?. Qed.

Lemma store_ok_push l m sv :
  role m ≠ system → store_ok sv → store_ok (push l m sv).
Proof.
  intros Hm (Hb & Hi & Hw). split; [| split]; simpl.
  - intros k l' Hk. rewrite length_alter. by eapply Hb.
  - exact Hi.
  - apply Forall_alter; [done |]. intros a _ Ha. by apply well_formed_push.
Qed.

Lemma store_ok_setup m sv ws : store_ok sv → store_ok (on_setup m sv ws).1.
Proof.
  intros (Hb & Hi & Hw). split; [| split]; simpl.
  - intros k l Hk. rewrite length_app. simpl.
    apply lookup_insert_Some in Hk as [[_ Hk]|[_ Hk]]; [lia |].
    apply Hb in Hk. lia.
  - intros k1 k2 l H1 H2.
    apply lookup_insert_Some in H1 as [[E1 L1]|[N1 H1]];
      apply lookup_insert_Some in H2 as [[E2 L2]|[N2 H2]].
    + congruence.
    + apply Hb in H2. lia.
    + apply Hb in H1. lia.
    + by eapply Hi.
  - apply Forall_app. split; [done |]. constructor; [| constructor].
    apply well_formed_fresh.
Qed.

Lemma store_ok_close sv ws : store_ok sv → store_ok (on_close sv ws).
Proof.
  intros (Hb & Hi & Hw). split; [| split]; simpl; [| | done].
  - intros k l Hk. apply lookup_delete_Some in Hk as [_ Hk]. by eapply Hb.
  - intros k1 k2 l H1 H2.
    apply lookup_delete_Some in H1 as [_ H1].
    apply lookup_delete_Some in H2 as [_ H2]. by eapply Hi.
Qed.

Lemma store_ok_run sv sv' : rtc step sv sv' → store_ok sv → store_ok sv'.
Proof.
  apply (R_run (λ sv sv', store_ok sv → store_ok sv')).
  - auto.
  - auto.
  - intros line s. apply store_ok_log.
  - intros l m s Hm. by apply store_ok_push.
  - intros m s ws. apply store_ok_setup.
  - intros s ws. apply store_ok_close.
Qed.

Lemma reachable_store_ok sv : reachable sv → store_ok sv.
Proof. intros Hr. eapply store_ok_run; [exact Hr | apply store_ok_initial]. Qed.

(** *** Arrays only grow *)

Lemma grows_refl sv : grows sv sv.
Proof. intros l h Hl. exists []. by rewrite app_nil_r. Qed.

Lemma grows_trans sv1 sv2 sv3 : grows sv1 sv2 → grows sv2 sv3 → grows sv1 sv3.
Proof.
  intros H12 H23 l h Hl.
  apply H12 in Hl as (e1 & Hl). apply H23 in Hl as (e2 & Hl).
  exists (e1 ++ e2). by rewrite Hl, <- app_assoc.
Qed.

Lemma grows_push l m sv : grows sv (push l m sv).
Proof.
  intros l' h Hl. simpl. destruct (decide (l = l')) as [->|Hne].
  - exists [m]. by rewrite list_lookup_alter_eq, Hl.
  - exists []. by rewrite list_lookup_alter_ne, app_nil_r.
Qed.

Lemma grows_setup m sv ws : grows sv (on_setup m sv ws).1.
Proof.
  intros l h Hl. simpl. exists [].
  rewrite lookup_app_l by (by eapply lookup_lt_Some). by rewrite app_nil_r.
Qed.

Lemma grows_run sv sv' : rtc step sv sv' → grows sv sv'.
Proof.
  apply (R_run grows).
  - apply grows_refl.
  - apply grows_trans.
  - intros line s. exact (grows_refl s).
  - intros l m s _. apply grows_push.
  - intros m s ws. apply grows_setup.
  - intros s ws. exact (grows_refl s).
Qed.

(** ** Further properties of the handlers *)

Lemma history_other_setup m sv ws k h :
  k ≠ callSid m →
  history sv k = Some h → history (on_setup m sv ws).1 k = Some h.
Proof.
  unfold history. intros Hne Hh. cbn [on_setup fst log sessions heap].
  rewrite lookup_insert_ne by done.
  destruct (sessions sv !! k) as [l|]; [| done]. simpl in *.
  rewrite lookup_app_l by (by eapply lookup_lt_Some). exact Hh.
Qed.

(** X1.  A message whose type is none of ["setup"], ["prompt"] and
    ["interrupt"] (or that has no type) is ignored: the handler returns and
    the store, the console and the connection are exactly as before. *)
Theorem unknown_type_is_ignored US be m sv ws :
  type m ≠ Some "setup" →
  type m ≠ Some "prompt" →
  type m ≠ Some "interrupt" →
  on_message US be m sv ws = (Fulfilled (), sv, ws).
Proof.
  intros H1 H2 H3. unfold on_message, has_type.
  by rewrite !bool_decide_eq_false_2.
Qed.

(** X2.  A setup, whatever the state: the handler returns, the identifier's
    history is the system message alone, the connection is bound to the
    identifier, nothing is sent, and the history of every other call
    identifier is as before. *)
Theorem setup_creates_session US be m sv ws :
  type m = Some "setup" →
  ∃ sv' ws',
    on_message US be m sv ws = (Fulfilled (), sv', ws') ∧
    history sv' (callSid m) = Some [system_message] ∧
    ws_callSid ws' = callSid m ∧
    sent_since ws ws' = [] ∧
    ∀ k h, k ≠ callSid m → history sv k = Some h → history sv' k = Some h.
Proof.
  intros Ht. rewrite on_message_setup by done.
  eexists _, _. split; [reflexivity |].
  pose proof (setup_creates m sv ws) as Hsetup.
  pose proof (λ k h, history_other_setup m sv ws k h) as Hother.
  destruct (on_setup m sv ws) as [sv1 ws1].
  destruct Hsetup as (Hw & Hsent & Hs1 & Hh1 & Hnew). cbn [fst snd] in *.
  split; [| split; [done | split; [| exact Hother]]].
  - eapply history_lookup; [| exact Hnew]. rewrite Hs1. apply lookup_insert_eq.
  - apply sent_since_app. by rewrite app_nil_r.
Qed.

(** X3.  In a reachable state, a prompt changes the history of no call
    identifier other than the connection's own, whatever the backend does. *)
Theorem prompt_leaves_other_histories US be m sv ws o sv' ws' k :
  reachable sv →
  type m = Some "prompt" →
  on_message US be m sv ws = (o, sv', ws') →
  k ≠ ws_callSid ws →
  history sv' k = history sv k.
Proof.
  intros Hr Ht Hrun Hk. apply reachable_store_ok in Hr as (Hb & Hi & _).
  rewrite on_message_prompt in Hrun by done.
  destruct (sessions sv !! ws_callSid ws) as [l|] eqn:Hs.
  - destruct (lookup_lt_is_Some_2 _ _ (Hb _ _ Hs)) as [h Hh].
    apply (on_prompt_frame _ _ _ _ _ _ _ _ _ _ Hs Hh) in Hrun
      as (Hs' & _ & Ho & _).
    unfold history. rewrite Hs'.
    destruct (sessions sv !! k) as [l'|] eqn:Hl'; [| done]. simpl.
    apply Ho. intros ->. apply Hk. by eapply Hi.
  - unfold on_prompt, prompt_begin in Hrun. rewrite Hs in Hrun. by simplify_eq.
Qed.

(** X4.  In a reachable state no two call identifiers refer to the same
    history array. *)
Theorem sessions_do_not_share_arrays sv k1 k2 l1 l2 :
  reachable sv →
  k1 ≠ k2 →
  sessions sv !! k1 = Some l1 →
  sessions sv !! k2 = Some l2 →
  l1 ≠ l2.
Proof.
  intros Hr Hne H1 H2 ->. apply reachable_store_ok in Hr as (_ & Hi & _).
  apply Hne. by eapply Hi.
Qed.

(** X5.  In a reachable state every call identifier of the store has a
    history; it starts with the system message and holds no other system
    message. *)
Theorem session_history_is_well_formed sv k :
  reachable sv →
  is_Some (sessions sv !! k) →
  ∃ rest, history sv k = Some (system_message :: rest) ∧
          Forall (λ m, role m ≠ system) rest.
Proof.
  intros Hr [l Hl]. apply reachable_store_ok in Hr as (Hb & _ & Hw).
  destruct (lookup_lt_is_Some_2 _ _ (Hb _ _ Hl)) as [h Hh].
  rewrite Forall_lookup in Hw. destruct (Hw _ _ Hh) as (rest & -> & Hrest).
  exists rest. split; [| done]. by eapply history_lookup.
Qed.

(** X6.  Along every run, an array only has messages added at its end; so
    the history of a call identifier that still refers to the same array
    extends the one it had. *)
Theorem histories_are_append_only sv sv' :
  rtc step sv sv' →
  (∀ l h, heap sv !! l = Some h → ∃ ext, heap sv' !! l = Some (h ++ ext)) ∧
  (∀ k h, sessions sv' !! k = sessions sv !! k → history sv k = Some h →
          ∃ ext, history sv' k = Some (h ++ ext)).
Proof.
  intros Hrun. apply grows_run in Hrun. split; [exact Hrun |].
  intros k h Hsame. unfold history. rewrite Hsame.
  destruct (sessions sv !! k) as [l|]; [| done]. simpl. apply Hrun.
Qed.

(** X7.  Closing a connection removes the session of its call identifier
    and nothing else: every other history and every array is as before.
    Closing a connection whose identifier has no session, and so closing a
    second time, leaves the store as it is. *)
Theorem close_removes_own_session sv ws :
  history (on_close sv ws) (ws_callSid ws) = None ∧
  (∀ k, k ≠ ws_callSid ws → history (on_close sv ws) k = history sv k) ∧
  heap (on_close sv ws) = heap sv ∧
  (sessions sv !! ws_callSid ws = None → sessions (on_close sv ws) = sessions sv) ∧
  sessions (on_close (on_close sv ws) ws) = sessions (on_close sv ws).
Proof.
  split; [apply history_on_close_own |].
  split; [intros k Hk; by apply history_on_close_other |].
  split; [done |]. cbn [on_close log sessions]. split.
  - apply delete_id.
  - apply delete_delete_eq.
Qed.

(** X8.  Once a connection has closed, a prompt on any connection bound to
    the same call identifier finds no session: the handler is rejected with
    a [TypeError] and changes nothing. *)
Theorem prompt_after_close_rejects US be m sv ws ws2 :
  type m = Some "prompt" →
  ws_callSid ws2 = ws_callSid ws →
  on_message US be m (on_close sv ws) ws2
    = (Rejected TypeError, on_close sv ws, ws2).
Proof.
  intros Ht Hw. rewrite on_message_prompt by done.
  unfold on_prompt, prompt_begin. cbn [on_close log sessions].
  by rewrite Hw, lookup_delete_eq.
Qed.

Lemma prompt_begin_found m sv ws l h :
  sessions sv !! ws_callSid ws = Some l →
  heap sv !! l = Some h →
  ∃ sv1,
    prompt_begin m sv ws = (Fulfilled l, sv1) ∧
    sessions sv1 = sessions sv ∧
    length (heap sv1) = length (heap sv) ∧
    console sv1 = console sv ++ [UserResponse (voicePrompt m)] ∧
    heap sv1 !! l = Some (h ++ [user_message (voicePrompt m)]).
Proof.
  intros Hs Hh. unfold prompt_begin. rewrite Hs. eexists. split; [reflexivity |].
  cbn [log sessions heap console push]. split; [done |].
  split; [apply length_alter |]. split; [done |].
  by rewrite list_lookup_alter_eq, Hh.
Qed.

Lemma prompt_resume_fulfilled l r sv h :
  heap sv !! l = Some h →
  ∃ sv1,
    prompt_resume l (Fulfilled r) sv = (Fulfilled (), sv1) ∧
    sessions sv1 = sessions sv ∧
    heap sv1 !! l = Some (h ++ [assistant_message r]).
Proof.
  intros Hh. eexists. split; [reflexivity |].
  cbn [log sessions heap push]. split; [done |].
  by rewrite list_lookup_alter_eq, Hh.
Qed.

(** X9.  A generation that returns after its connection has closed: the
    handler resumes and pushes the assistant message onto the array it
    holds, but the call identifier has no session any more, so the message
    is in no history. *)
Theorem generation_after_close_is_orphaned m sv ws l h r :
  sessions sv !! ws_callSid ws = Some l →
  heap sv !! l = Some h →
  ∃ sv1 sv3,
    prompt_begin m sv ws = (Fulfilled l, sv1) ∧
    prompt_resume l (Fulfilled r) (on_close sv1 ws) = (Fulfilled (), sv3) ∧
    heap sv3 !! l =
      Some (h ++ [user_message (voicePrompt m); assistant_message r]) ∧
    history sv3 (ws_callSid ws) = None.
Proof.
  intros Hs Hh.
  destruct (prompt_begin_found m _ _ _ _ Hs Hh) as (sv1 & Hb & _ & _ & _ & Hh1).
  destruct (prompt_resume_fulfilled l r (on_close sv1 ws) _ Hh1)
    as (sv3 & Hr & Hs3 & Hh3).
  exists sv1, sv3. split; [done |]. split; [done |].
  split; [by rewrite Hh3, <- app_assoc |].
  unfold history. rewrite Hs3. cbn [on_close log sessions].
  by rewrite lookup_delete_eq.
Qed.

(** X10.  A generation that returns after a new setup for the same call
    identifier (from this or another connection): the assistant message
    goes to the array of the former session, and the history of the new
    session is still the system message alone. *)
Theorem response_for_replaced_session m m' sv ws ws2 l h r :
  sessions sv !! ws_callSid ws = Some l →
  heap sv !! l = Some h →
  callSid m' = ws_callSid ws →
  ∃ sv1 sv3,
    prompt_begin m sv ws = (Fulfilled l, sv1) ∧
    prompt_resume l (Fulfilled r) (on_setup m' sv1 ws2).1 = (Fulfilled (), sv3) ∧
    heap sv3 !! l =
      Some (h ++ [user_message (voicePrompt m); assistant_message r]) ∧
    history sv3 (ws_callSid ws) = Some [system_message].
Proof.
  intros Hs Hh Hsid.
  destruct (prompt_begin_found m _ _ _ _ Hs Hh) as (sv1 & Hb & _ & _ & _ & Hh1).
  exists sv1.
  pose proof (setup_creates m' sv1 ws2) as Hsetup.
  destruct (on_setup m' sv1 ws2) as [sv2 ws2'].
  destruct Hsetup as (_ & _ & Hs2 & Hh2 & Hnew). cbn [fst].
  apply lookup_lt_Some in Hh1 as Hlt.
  assert (Hold : heap sv2 !! l = Some (h ++ [user_message (voicePrompt m)])).
  { rewrite Hh2. by rewrite lookup_app_l. }
  destruct (prompt_resume_fulfilled l r sv2 _ Hold) as (sv3 & Hr & Hs3 & Hh3).
  exists sv3. split; [done |]. split; [done |].
  split; [by rewrite Hh3, <- app_assoc |].
  eapply (history_lookup _ _ (length (heap sv1))).
  - rewrite Hs3, Hs2, <- Hsid. apply lookup_insert_eq.
  - unfold prompt_resume in Hr. simplify_eq. cbn [log heap push].
    rewrite list_lookup_alter_ne by lia. exact Hnew.
Qed.

Lemma generateAIResponse_frames US be conv ws r ws' :
  generateAIResponse US be conv ws = (r, ws') →
  ∃ body,
    Forall is_fragment body ∧
    match r with
    | Fulfilled _ => ∃ f, ws_sent ws' = ws_sent ws ++ body ++ [f] ∧ is_final f
    | Rejected _ => ws_sent ws' = ws_sent ws ++ body
    end.
Proof.
  unfold generateAIResponse. intros H. destruct US.
  - destruct (create_stream be conv) as [s|].
    + rewrite for_await_spec in H.
      exists (fragment <$> fragments_of (chunks s)).
      split; [by apply Forall_fmap, Forall_true |].
      destruct (ending s); simplify_eq; simpl.
      * exists final_marker. by rewrite <- app_assoc.
      * done.
    + simplify_eq. exists []. split; [constructor | by rewrite app_nil_r].
  - destruct (create be conv) as [c|].
    + destruct (choices c) as [|ch rest]; simplify_eq.
      * exists []. split; [constructor | by rewrite app_nil_r].
      * exists []. split; [constructor |]. eexists. by split.
    + simplify_eq. exists []. split; [constructor | by rewrite app_nil_r].
Qed.

(** X11.  The frames of a message, in both modes and whatever the backend
    does.  A message that is not a prompt sends nothing.  A prompt sends
    frames of type ["text"] with [last = false], followed by exactly one
    frame with [last = true] when the handler returns, and by none when it
    is rejected. *)
Theorem frames_of_a_message US be m sv ws o sv' ws' :
  on_message US be m sv ws = (o, sv', ws') →
  (type m ≠ Some "prompt" → o = Fulfilled () ∧ sent_since ws ws' = []) ∧
  (type m = Some "prompt" →
     ∃ body, Forall is_fragment body ∧
       match o with
       | Fulfilled _ => ∃ f, sent_since ws ws' = body ++ [f] ∧ is_final f
       | Rejected _ => sent_since ws ws' = body
       end).
Proof.
  intros Hrun. split.
  - intros Ht. unfold on_message, has_type in Hrun.
    rewrite (bool_decide_eq_false_2 (type m = Some "prompt")) in Hrun by done.
    assert (Hsent : ws_sent ws' = ws_sent ws ∧ o = Fulfilled ()).
    { destruct (bool_decide (type m = Some "setup"));
        destruct (bool_decide (type m = Some "interrupt"));
        unfold on_setup, on_interrupt in Hrun; by simplify_eq. }
    destruct Hsent as [Hsent ->]. split; [done |].
    apply sent_since_app. by rewrite app_nil_r.
  - intros Ht. rewrite on_message_prompt in Hrun by done.
    unfold on_prompt, prompt_settle in Hrun.
    destruct (prompt_begin m sv ws) as [[c|e] sv1].
    + destruct (generateAIResponse _ _ _ _) as [r ws1] eqn:Hg.
      apply generateAIResponse_frames in Hg as (body & Hbody & Hg).
      exists body. split; [done |].
      destruct r as [response|e]; cbn [prompt_resume] in Hrun; simplify_eq.
      * destruct Hg as (f & Hsent & Hf). exists f.
        split; [by apply sent_since_app | done].
      * by apply sent_since_app.
    + simplify_eq. exists []. split; [constructor |].
      apply sent_since_app. by rewrite app_nil_r.
Qed.

Lemma generateAIResponse_completion be conv ws c ch rest :
  create be conv = Some c →
  choices c = ch :: rest →
  generateAIResponse false be conv ws =
    (Fulfilled (content (message ch)),
     send (Out.mk "text" (content (message ch)) true) ws).
Proof. intros Hc Hch. unfold generateAIResponse. by rewrite Hc, Hch. Qed.

Lemma join_fragments_of cs :
  join (fragments_of cs) = concatenation (chunk_content <$> cs).
Proof. rewrite join_concatenation. apply concatenation_nonempty. Qed.

(** X12.  What a turn leaves on the server does not depend on the mode: a
    stream that runs to its end and a completion whose content is the
    concatenation of the stream's contents give the same outcome, the same
    store and arrays and the same console.  Only the frames differ. *)
Theorem stored_turn_is_mode_independent be1 be2 m sv ws l h s c ch rest :
  type m = Some "prompt" →
  sessions sv !! ws_callSid ws = Some l →
  heap sv !! l = Some h →
  create_stream be1 (h ++ [user_message (voicePrompt m)]) = Some s →
  ending s = StreamDone →
  create be2 (h ++ [user_message (voicePrompt m)]) = Some c →
  choices c = ch :: rest →
  content (message ch) = Some (concatenation (chunk_content <$> chunks s)) →
  (on_message true be1 m sv ws).1 = (on_message false be2 m sv ws).1.
Proof.
  intros Ht Hs Hh Hc1 He Hc2 Hch Htext.
  rewrite !on_message_prompt by done.
  rewrite !(on_prompt_found _ _ _ _ _ _ _ Hs Hh). cbn zeta.
  rewrite (generateAIResponse_streamed _ _ _ _ Hc1 He).
  rewrite (generateAIResponse_completion _ _ _ _ _ _ Hc2 Hch).
  by rewrite Htext, join_fragments_of.
Qed.

(** X13.  In streaming mode, what a turn leaves on the server does not
    depend on how the backend cuts the text into chunks: two streams that
    run to their end with the same concatenated contents give the same
    outcome, store, arrays and console. *)
Theorem stored_turn_ignores_chunking be1 be2 m sv ws l h s1 s2 :
  type m = Some "prompt" →
  sessions sv !! ws_callSid ws = Some l →
  heap sv !! l = Some h →
  create_stream be1 (h ++ [user_message (voicePrompt m)]) = Some s1 →
  create_stream be2 (h ++ [user_message (voicePrompt m)]) = Some s2 →
  ending s1 = StreamDone →
  ending s2 = StreamDone →
  concatenation (chunk_content <$> chunks s1)
    = concatenation (chunk_content <$> chunks s2) →
  (on_message true be1 m sv ws).1 = (on_message true be2 m sv ws).1.
Proof.
  intros Ht Hs Hh Hc1 Hc2 He1 He2 Htext.
  rewrite !on_message_prompt by done.
  rewrite !(on_prompt_found _ _ _ _ _ _ _ Hs Hh). cbn zeta.
  rewrite (generateAIResponse_streamed _ _ _ _ Hc1 He1).
  rewrite (generateAIResponse_streamed _ _ _ _ Hc2 He2).
  by rewrite !join_fragments_of, Htext.
Qed.

(** X14.  Two prompts whose handlers overlap, both generations returning:
    the second request already carries both user messages, and the history
    ends with the two user messages followed by the two assistant
    messages. *)
Theorem overlapped_prompts_history US m1 be1 m2 be2 sv ws l h r1 r2 ws1 ws2 :
  sessions sv !! ws_callSid ws = Some l →
  heap sv !! l = Some h →
  generateAIResponse US be1 (h ++ [user_message (voicePrompt m1)]) ws
    = (Fulfilled r1, ws1) →
  generateAIResponse US be2
      (h ++ [user_message (voicePrompt m1); user_message (voicePrompt m2)]) ws1
    = (Fulfilled r2, ws2) →
  ∃ sv',
    overlap US m1 be1 m2 be2 sv ws = ([Fulfilled (); Fulfilled ()], sv', ws2) ∧
    history sv' (ws_callSid ws) =
      Some (h ++ [user_message (voicePrompt m1); user_message (voicePrompt m2);
                  assistant_message r1; assistant_message r2]).
Proof.
  intros Hs Hh Hg1 Hg2. unfold overlap.
  destruct (prompt_begin_found m1 _ _ _ _ Hs Hh)
    as (sv1 & Hb1 & Hs1 & _ & _ & Hh1).
  rewrite Hb1.
  destruct (prompt_begin_found m2 sv1 ws l _ ltac:(by rewrite Hs1) Hh1)
    as (sv2 & Hb2 & Hs2 & _ & _ & Hh2).
  rewrite Hb2. unfold prompt_settle.
  rewrite Hh1, Hh2. cbn [default from_option id]. rewrite Hg1.
  destruct (prompt_resume_fulfilled l r1 sv2 _ Hh2) as (sv3 & Hr1 & Hs3 & Hh3).
  rewrite Hr1. rewrite <- app_assoc. cbn [app]. rewrite Hg2.
  destruct (prompt_resume_fulfilled l r2 sv3 _ Hh3) as (sv4 & Hr2 & Hs4 & Hh4).
  rewrite Hr2. exists sv4. split; [done |].
  eapply history_lookup; [by rewrite Hs4, Hs3, Hs2, Hs1 |].
  rewrite Hh4. by rewrite <- !app_assoc.
Qed.

(** X15.  An interrupt cancels nothing: a generation that is in flight when
    the interrupt is handled settles as it would have without it, with the
    same outcome, the same frames and the same store and arrays. *)
Theorem interrupt_does_not_cancel US be be' mi conversation request sv ws :
  type mi = Some "interrupt" →
  ∃ svi,
    on_message US be' mi sv ws = (Fulfilled (), svi, ws) ∧
    ∀ o sv' ws',
      prompt_settle US be conversation request sv ws = (o, sv', ws') →
      ∃ sv'',
        prompt_settle US be conversation request svi ws = (o, sv'', ws') ∧
        sessions sv'' = sessions sv' ∧
        heap sv'' = heap sv'.
Proof.
  intros Ht. rewrite on_message_interrupt by done.
  eexists. split; [reflexivity |].
  intros o sv' ws'. unfold prompt_settle.
  destruct (generateAIResponse _ _ _ _) as [[r|e] ws1]; cbn [prompt_resume];
    intros H; simplify_eq; by eexists.
Qed.

(** X16.  A stream that throws before its end, after chunks carrying the
    texts [texts] one by one: the handler is rejected with the backend's
    error, the frames sent are exactly the non-empty texts, in order, each
    as [{ type: "text", token, last: false }], and the history ends with
    the user message. *)
Theorem broken_stream_keeps_fragments be m sv ws l h s texts :
  type m = Some "prompt" →
  sessions sv !! ws_callSid ws = Some l →
  heap sv !! l = Some h →
  create_stream be (h ++ [{| role := user; content := voicePrompt m |}])
    = Some s →
  ending s = StreamError →
  Forall2 carries (chunks s) texts →
  ∃ sv' ws',
    on_message true be m sv ws = (Rejected BackendError, sv', ws') ∧
    sent_since ws ws' =
      (λ t, Out.mk "text" (Some t) false) <$> filter (λ t, t ≠ "") texts ∧
    history sv' (ws_callSid ws) =
      Some (h ++ [{| role := user; content := voicePrompt m |}]).
Proof.
  intros Ht Hs Hh Hc He Hcar. rewrite on_message_prompt by done.
  rewrite (on_prompt_found _ _ _ _ _ _ _ Hs Hh). cbn zeta.
  unfold generateAIResponse. unfold user_message. rewrite Hc, for_await_spec, He.
  rewrite (carries_fragments _ _ Hcar).
  eexists _, _. split; [reflexivity |]. split; [by apply sent_since_app |].
  eapply history_lookup; [exact Hs |]. cbn [log heap]. by apply heap_push_same.
Qed.

(** ** The further properties at concrete inputs *)

Lemma deliver_reachable US events : ∀ sv ws os sv' ws',
  reachable sv →
  deliver US events sv ws = (os, sv', ws') →
  reachable sv'.
Proof.
  induction events as [|[m be] events IH]; intros sv ws os sv' ws' Hr Hd.
  - simpl in Hd. by simplify_eq.
  - cbn [deliver] in Hd.
    destruct (on_message US be m sv ws) as [[o sv1] ws1] eqn:Hm.
    destruct (deliver US events sv1 ws1) as [[os2 sv2] ws2] eqn:Hd2.
    simplify_eq. eapply IH; [| exact Hd2].
    eapply rtc_r; [exact Hr |]. by eapply step_message.
Qed.

Lemma reachable_rebound_call : reachable rebound_call.1.2.
Proof.
  apply (deliver_reachable false
           ((setup CA1, rejects) :: (setup CA2, rejects)
              :: prompts_of [(Some "hello", completes (Some "hi there"))])
           initial connect
           rebound_call.1.1 rebound_call.1.2 rebound_call.2).
  - apply rtc_refl.
  - vm_compute. reflexivity.
Qed.

Lemma reachable_batch_call : reachable batch_call.1.2.
Proof.
  apply (deliver_reachable false
           [(setup CA1, rejects); (hello, completes (Some "hi there"))]
           initial connect
           batch_call.1.1 batch_call.1.2 batch_call.2).
  - apply rtc_refl.
  - vm_compute. reflexivity.
Qed.

Lemma unknown_type_is_ignored_witness :
  on_message true storyteller dtmf call_CA1.1 call_CA1.2
    = (Fulfilled (), call_CA1.1, call_CA1.2).
Proof.
  apply (unknown_type_is_ignored true storyteller dtmf call_CA1.1 call_CA1.2);
    discriminate.
Defined.

Lemma setup_creates_session_witness :
  ∃ sv' ws',
    on_message false rejects (setup CA2) batch_call.1.2 batch_call.2
      = (Fulfilled (), sv', ws') ∧
    history sv' (callSid (setup CA2)) = Some [system_message] ∧
    ws_callSid ws' = callSid (setup CA2) ∧
    sent_since batch_call.2 ws' = [] ∧
    ∀ k h, k ≠ callSid (setup CA2) →
           history batch_call.1.2 k = Some h → history sv' k = Some h.
Proof.
  apply (setup_creates_session false rejects (setup CA2)
           batch_call.1.2 batch_call.2).
  reflexivity.
Defined.

Lemma prompt_leaves_other_histories_witness :
  CA1 ≠ ws_callSid rebound_call.2 ∧
  history rebound_second_turn.1.2 CA1 = history rebound_call.1.2 CA1.
Proof.
  assert (Hne : CA1 ≠ ws_callSid rebound_call.2) by discriminate.
  split; [exact Hne |].
  apply (prompt_leaves_other_histories false (completes (Some "yes"))
           are_you_there rebound_call.1.2 rebound_call.2
           rebound_second_turn.1.1 rebound_second_turn.1.2
           rebound_second_turn.2 CA1).
  - exact reachable_rebound_call.
  - reflexivity.
  - reflexivity.
  - exact Hne.
Defined.

Lemma sessions_do_not_share_arrays_witness :
  sessions rebound_call.1.2 !! CA1 = Some 0 ∧
  sessions rebound_call.1.2 !! CA2 = Some 1 ∧
  0 ≠ 1.
Proof.
  split; [reflexivity |]. split; [reflexivity |].
  apply (sessions_do_not_share_arrays rebound_call.1.2 CA1 CA2 0 1).
  - exact reachable_rebound_call.
  - discriminate.
  - reflexivity.
  - reflexivity.
Defined.

Lemma session_history_is_well_formed_witness :
  ∃ rest, history batch_call.1.2 CA1 = Some (system_message :: rest) ∧
          Forall (λ m, role m ≠ system) rest.
Proof.
  apply (session_history_is_well_formed batch_call.1.2 CA1).
  - exact reachable_batch_call.
  - exists 0. reflexivity.
Defined.

Lemma histories_are_append_only_witness :
  (∀ l h, heap call_CA1.1 !! l = Some h →
          ∃ ext, heap batch_call.1.2 !! l = Some (h ++ ext)) ∧
  (∀ k h, sessions batch_call.1.2 !! k = sessions call_CA1.1 !! k →
          history call_CA1.1 k = Some h →
          ∃ ext, history batch_call.1.2 k = Some (h ++ ext)).
Proof.
  apply (histories_are_append_only call_CA1.1 batch_call.1.2).
  apply rtc_once.
  apply (step_message false (completes (Some "hi there")) hello
           call_CA1.1 call_CA1.2 (Fulfilled ()) batch_call.1.2 batch_call.2).
  reflexivity.
Defined.

Lemma prompt_after_close_rejects_witness :
  on_message false (completes (Some "yes")) are_you_there
      (on_close batch_call.1.2 batch_call.2) batch_call.2
    = (Rejected TypeError, on_close batch_call.1.2 batch_call.2, batch_call.2).
Proof.
  apply (prompt_after_close_rejects false (completes (Some "yes")) are_you_there
           batch_call.1.2 batch_call.2 batch_call.2); reflexivity.
Defined.

Lemma generation_after_close_is_orphaned_witness :
  ∃ sv1 sv3,
    prompt_begin hello call_CA1.1 call_CA1.2 = (Fulfilled 0, sv1) ∧
    prompt_resume 0 (Fulfilled (Some "hi there")) (on_close sv1 call_CA1.2)
      = (Fulfilled (), sv3) ∧
    heap sv3 !! 0 =
      Some ([system_message] ++
            [user_message (voicePrompt hello);
             assistant_message (Some "hi there")]) ∧
    history sv3 (ws_callSid call_CA1.2) = None.
Proof.
  apply (generation_after_close_is_orphaned hello call_CA1.1 call_CA1.2 0
           [system_message] (Some "hi there")); reflexivity.
Defined.

Lemma response_for_replaced_session_witness :
  ∃ sv1 sv3,
    prompt_begin hello call_CA1.1 call_CA1.2 = (Fulfilled 0, sv1) ∧
    prompt_resume 0 (Fulfilled (Some "hi there"))
      (on_setup (setup CA1) sv1 connect).1 = (Fulfilled (), sv3) ∧
    heap sv3 !! 0 =
      Some ([system_message] ++
            [user_message (voicePrompt hello);
             assistant_message (Some "hi there")]) ∧
    history sv3 (ws_callSid call_CA1.2) = Some [system_message].
Proof.
  apply (response_for_replaced_session hello (setup CA1) call_CA1.1 call_CA1.2
           connect 0 [system_message] (Some "hi there")); reflexivity.
Defined.

Lemma frames_of_a_message_witness :
  (type tell_me_a_story ≠ Some "prompt" →
     story_turn.1.1 = Fulfilled () ∧ sent_since call_CA2.2 story_turn.2 = []) ∧
  (type tell_me_a_story = Some "prompt" →
     ∃ body, Forall is_fragment body ∧
       match story_turn.1.1 with
       | Fulfilled _ =>
           ∃ f, sent_since call_CA2.2 story_turn.2 = body ++ [f] ∧ is_final f
       | Rejected _ => sent_since call_CA2.2 story_turn.2 = body
       end).
Proof.
  apply (frames_of_a_message true storyteller tell_me_a_story
           call_CA2.1 call_CA2.2
           story_turn.1.1 story_turn.1.2 story_turn.2).
  reflexivity.
Defined.

Lemma stored_turn_is_mode_independent_witness :
  (on_message true (streams [Some "hi"; Some " there"] StreamDone) hello
     call_CA1.1 call_CA1.2).1
  = (on_message false (completes (Some "hi there")) hello
       call_CA1.1 call_CA1.2).1.
Proof.
  apply (stored_turn_is_mode_independent
           (streams [Some "hi"; Some " there"] StreamDone)
           (completes (Some "hi there")) hello call_CA1.1 call_CA1.2
           0 [system_message]
           {| chunks := chunk_of <$> [Some "hi"; Some " there"];
              ending := StreamDone |}
           {| choices := [{| message := assistant_message (Some "hi there") |}] |}
           {| message := assistant_message (Some "hi there") |} []);
    reflexivity.
Defined.

Lemma stored_turn_ignores_chunking_witness :
  (on_message true (streams [Some "hi"; Some " there"] StreamDone) hello
     call_CA1.1 call_CA1.2).1
  = (on_message true (streams [Some "hi t"; None; Some "here"] StreamDone) hello
       call_CA1.1 call_CA1.2).1.
Proof.
  apply (stored_turn_ignores_chunking
           (streams [Some "hi"; Some " there"] StreamDone)
           (streams [Some "hi t"; None; Some "here"] StreamDone)
           hello call_CA1.1 call_CA1.2 0 [system_message]
           {| chunks := chunk_of <$> [Some "hi"; Some " there"];
              ending := StreamDone |}
           {| chunks := chunk_of <$> [Some "hi t"; None; Some "here"];
              ending := StreamDone |});
    reflexivity.
Defined.

Lemma overlapped_prompts_history_witness :
  ∃ sv',
    overlap false hello (completes (Some "hi there"))
      are_you_there (completes (Some "yes")) call_CA1.1 call_CA1.2
      = ([Fulfilled (); Fulfilled ()], sv', overlapped_call.2) ∧
    history sv' (ws_callSid call_CA1.2) =
      Some ([system_message] ++
            [user_message (voicePrompt hello);
             user_message (voicePrompt are_you_there);
             assistant_message (Some "hi there");
             assistant_message (Some "yes")]).
Proof.
  apply (overlapped_prompts_history false hello (completes (Some "hi there"))
           are_you_there (completes (Some "yes")) call_CA1.1 call_CA1.2
           0 [system_message] (Some "hi there") (Some "yes")
           (send (Out.mk "text" (Some "hi there") true) call_CA1.2)
           overlapped_call.2); reflexivity.
Defined.

Lemma interrupt_does_not_cancel_witness :
  ∃ svi,
    on_message true rejects interrupt call_CA2.1 call_CA2.2
      = (Fulfilled (), svi, call_CA2.2) ∧
    ∀ o sv' ws',
      prompt_settle true storyteller 0
        [system_message; user_message (Some "tell me a story")]
        call_CA2.1 call_CA2.2 = (o, sv', ws') →
      ∃ sv'',
        prompt_settle true storyteller 0
          [system_message; user_message (Some "tell me a story")]
          svi call_CA2.2 = (o, sv'', ws') ∧
        sessions sv'' = sessions sv' ∧
        heap sv'' = heap sv'.
Proof.
  apply (interrupt_does_not_cancel true storyteller rejects interrupt 0
           [system_message; user_message (Some "tell me a story")]
           call_CA2.1 call_CA2.2).
  reflexivity.
Defined.

Lemma broken_stream_keeps_fragments_witness :
  Forall2 carries (chunks broken_story) ["Once"; "upon"] ∧
  ∃ sv' ws',
    on_message true interrupted_storyteller tell_me_a_story
      call_CA1.1 call_CA1.2 = (Rejected BackendError, sv', ws') ∧
    sent_since call_CA1.2 ws' =
      [Out.mk "text" (Some "Once") false; Out.mk "text" (Some "upon") false] ∧
    history sv' (ws_callSid call_CA1.2) =
      Some [system_message;
            {| role := user; content := Some "tell me a story" |}].
Proof.
  assert (Hcar : Forall2 carries (chunks broken_story) ["Once"; "upon"])
    by (repeat constructor).
  split; [exact Hcar |].
  exact (broken_stream_keeps_fragments interrupted_storyteller tell_me_a_story
           call_CA1.1 call_CA1.2 0 [system_message] broken_story
           ["Once"; "upon"] eq_refl eq_refl eq_refl eq_refl eq_refl Hcar).
Defined.
